(** * foundry-agent-webapp: the pre-provision hook and the chat endpoint

    A shallow embedding of

    - [deployment/hooks/preprovision.ps1], the azd pre-provision hook that
      registers the Entra application, discovers the AI Foundry resource,
      project and agent, stores the result in the azd environment and writes
      the local [.env] files;
    - the [POST /api/chat] handler of [server/index.js];
    - [handleSubmit] of the chat page, [client/src/App.jsx].

    The hook is a straight-line PowerShell script that talks to the outside
    world through [az], [azd], two module scripts and the PowerShell host.
    Everything it reads from the outside is a field of [World]; everything it
    changes (the azd environment, the files, what it prints and calls) is a
    field of [State], threaded through a small state-and-exit monad.

    Strings are byte strings. Where PowerShell ignores case ([-eq],
    [-match], hashtable keys) the model folds ASCII letters; white space in
    the hook is the ASCII white space; the files the hook writes end their
    lines with line feeds. *)

From Stdlib Require Import Ascii.
From stdpp Require Import gmap strings list fin_maps pretty.

Local Open Scope Z_scope.

(** ** PowerShell and .NET string primitives *)

Module PS.

(** Line feed, the line separator of here-strings and of [`n]. *)
Definition nl : string := String (Ascii.ascii_of_nat 10) EmptyString.

(** The two characters that end a line of a text file. *)
Definition LF : ascii := Ascii.ascii_of_nat 10.
Definition CR : ascii := Ascii.ascii_of_nat 13.

(** [Char.IsWhiteSpace] on the ASCII range: U+0009..U+000D and the space.
    Characters outside ASCII are bytes of a UTF-8 sequence here and are
    never white space in this model. *)
Definition IsWhiteSpace (c : ascii) : bool := Ascii.is_space c.

Fixpoint all_white (s : string) : bool :=
  match s with
  | EmptyString => true
  | String c s' => IsWhiteSpace c && all_white s'
  end.

(** [[string]::IsNullOrWhiteSpace]; [None] is [$null]. *)
Definition IsNullOrWhiteSpace (v : option string) : bool :=
  match v with
  | None => true
  | Some s => all_white s
  end.

(** Truth value of a string-or-null in a condition: [$null] and the empty
    string are false, every other string is true. *)
Definition truthy (v : option string) : bool :=
  match v with
  | None | Some EmptyString => false
  | Some _ => true
  end.

Fixpoint TrimStart (s : string) : string :=
  match s with
  | EmptyString => EmptyString
  | String c s' => if IsWhiteSpace c then TrimStart s' else s
  end.

Definition TrimEnd (s : string) : string :=
  String.rev (TrimStart (String.rev s)).

(** [.Trim()] *)
Definition Trim (s : string) : string := TrimEnd (TrimStart s).

(** The script's idiom
    [if ($v) { $v.ToString().Trim() } else { $null }]. *)
Definition trimmed (v : option string) : option string :=
  if truthy v then Trim <$> v else None.

Definition upper_char (c : ascii) : ascii :=
  let n := Ascii.nat_of_ascii c in
  if ((97 <=? n)%nat && (n <=? 122)%nat)%bool
  then Ascii.ascii_of_nat (n - 32) else c.

Fixpoint ToUpper (s : string) : string :=
  match s with
  | EmptyString => EmptyString
  | String c s' => String (upper_char c) (ToUpper s')
  end.

(** The [-eq] operator on strings ignores case (ASCII case here). *)
Definition eq (a b : string) : bool := String.eqb (ToUpper a) (ToUpper b).

Fixpoint contains (needle hay : string) : bool :=
  String.prefix needle hay ||
  match hay with
  | EmptyString => false
  | String _ hay' => contains needle hay'
  end.

(** [$s -match 'literal']: the pattern is plain text and the operator
    ignores case, so it is a case-insensitive substring test. *)
Definition matches (s literal : string) : bool :=
  contains (ToUpper literal) (ToUpper s).

(** [$s.Split(sep)]: the segments between the separators; a string
    without separator is its own single segment. *)
Fixpoint Split (sep : ascii) (s : string) : list string :=
  match s with
  | EmptyString => [EmptyString]
  | String c s' =>
      if Ascii.eqb c sep then EmptyString :: Split sep s'
      else match Split sep s' with
           | [] => [String c EmptyString]
           | seg :: segs => String c seg :: segs
           end
  end.

(** [$a[-1]] on an array of strings. *)
Definition last_item (a : list string) : string := List.last a EmptyString.

(** [[int]::TryParse]: optional white space, an optional sign, decimal
    digits, optional white space; the value must fit 32 bits. *)
Fixpoint digits (s : string) (acc : Z) : option Z :=
  match s with
  | EmptyString => Some acc
  | String c s' =>
      match Ascii.is_nat c with
      | Some d => digits s' (10 * acc + Z.of_nat d)
      | None => None
      end
  end.

Definition unsigned (s : string) : option Z :=
  match s with
  | EmptyString => None
  | _ => digits s 0
  end.

Definition TryParse (s : string) : option Z :=
  let n :=
    match Trim s with
    | String "-" s' => Z.opp <$> unsigned s'
    | String "+" s' => unsigned s'
    | s' => unsigned s'
    end in
  n ≫= λ z, if (-2147483648 <=? z) && (z <=? 2147483647) then Some z else None.

End PS.

(** ** Data model of the hook *)

(** An element of [az cognitiveservices account list]. *)
Record Resource := {
  res_name : string;
  res_resourceGroup : string;
  res_location : string;
  res_id : string
}.

(** An element of the [value] array of the projects listing. *)
Record Project := { proj_name : string }.

(** An agent object returned by [modules/Get-AIFoundryAgents.ps1]. *)
Record Agent := { agent_name : string }.

(** [az account show | ConvertFrom-Json]; [acc_tenantId] may be missing. *)
Record Account := {
  acc_user_name : string;
  acc_tenantId : option string;
  acc_id : string
}.

(** A call that either raises a terminating error or returns. *)
Inductive attempt (A : Type) :=
  | Throws (message : string)
  | Returns (a : A).
Arguments Throws {A} message.
Arguments Returns {A} a.

(** The PowerShell host. [PromptForChoice] is [None] when [$Host.UI] has no
    such method; [Read_Host] raises on a host without input. *)
Record PSHost := {
  PromptForChoice : option (attempt Z);
  Read_Host : attempt string
}.

(** Everything the hook reads from outside itself. The two module scripts
    under [modules/] are taken as the hook calls them:
    [New_EntraAppRegistration] returns the client id (possibly nothing) or
    raises, [Get_AIFoundryAgents] returns all agents of a project endpoint
    or raises. *)
Record World := {
  az_installed : bool;
  az_account_show : option Account;
  env_AZURE_ENV_NAME : option string;
  env_ENTRA_SERVICE_MANAGEMENT_REFERENCE : option string;
  New_EntraAppRegistration :
    string → string → option string → attempt (option string);
  az_cognitiveservices_account_list : list Resource;
  az_rest_projects : string → list Project;
  Get_AIFoundryAgents : string → attempt (list Agent);
  (** whether [az role assignment list] on the resource group shows the role
      of Owner, User Access Administrator or Contributor for the account *)
  az_role_assignment_list : string → bool;
  (** whether [azd env set KEY ...] reaches the environment's storage *)
  azd_env_set_succeeds : string → bool;
  host : PSHost;
  (** the ordering [Sort-Object] applies to strings (current culture) *)
  culture_le : string → string → bool
}.

(** What the hook does to the outside, in order. Informational [Write-Host]
    lines are left out; a [Warning] is a [Write-Host] line that reports a
    problem: the lines that start with "[!]", the fall-back notice of line
    280 and the summary line of the catch block. *)
Inductive event :=
  | Write_Error (message : string)
  | Warning (message : string)
  | Azd_env_set (key value : string) (stored : bool)
  | Call_New_EntraAppRegistration (AppName TenantId : string)
      (ServiceManagementReference : option string)
  | Call_account_list
  | Call_rest_projects (resourceId : string)
  | Call_Get_AIFoundryAgents (ProjectEndpoint : string)
  | Call_PromptForChoice (caption : string) (choices : list string)
  | Call_Read_Host (prompt : string)
  | Out_File (FilePath content : string).

Global Instance event_eq_dec : EqDecision event.
Proof. solve_decision. Defined.

(** The azd environment (the ConfigStore), the files on disk, and the trace
    of events, oldest first.

    [store] is the environment as [azd env get-value] and [azd env set]
    show it to the script; [files] holds the files as [Get-Content] and
    [Out-File] of the script find and leave them. azd keeps its environment
    in [.azure/<env>/.env] and rewrites that file whenever a value is set;
    the layout azd gives the file is no part of the script, and the state
    keeps the two apart, as the specification does with its ConfigStore
    and the files of its ConfigEmitter: an [azd env set] leaves [files] as
    it is, and an [Out-File] leaves [store] as it is. Across an
    [azd env set], [files] is to be read as the files other than the one
    azd owns; what a run does to files is stated on its [Out_File]
    events. *)
Record State := {
  store : gmap string string;
  files : gmap string string;
  trace : list event
}.

(** ** The script monad: state plus [exit] *)

Inductive step (A : Type) :=
  | Next (a : A)
  | Exit (code : Z).
Arguments Next {A} a.
Arguments Exit {A} code.

Definition Script (A : Type) : Type := State → step A * State.

Global Instance Script_ret : MRet Script := λ A a s, (Next a, s).

Global Instance Script_bind : MBind Script := λ A B f m s,
  match m s with
  | (Next a, s') => f a s'
  | (Exit code, s') => (Exit code, s')
  end.

Definition exit {A} (code : Z) : Script A := λ s, (Exit code, s).

Definition emit (e : event) : Script unit := λ s,
  (Next tt, {| store := store s; files := files s; trace := trace s ++ [e] |}).

(** [azd env get-value KEY 2>&1 | Where-Object { $_ -notmatch 'ERROR' } |
    Select-Object -First 1]: a missing key makes azd print an ERROR line,
    which the filter drops; the filter also drops a value in which the text
    ERROR occurs. *)
Definition azd_env_get_value (env : gmap string string) (key : string)
  : option string :=
  match env !! key with
  | None => None
  | Some v => if PS.matches v "ERROR" then None else Some v
  end.

Definition get_value (key : string) : Script (option string) := λ s,
  (Next (azd_env_get_value (store s) key), s).

(** [Get-Content $p]: the lines of the file. A line ends at a line feed,
    at a carriage return, or at a carriage return directly followed by a
    line feed; what follows the last of them is a line when it is not
    empty. *)
Fixpoint Get_Content (content : string) : list string :=
  match content with
  | EmptyString => []
  | String c rest =>
      if Ascii.eqb c PS.LF then EmptyString :: Get_Content rest
      else if Ascii.eqb c PS.CR then
        match rest with
        | String c' rest' =>
            if Ascii.eqb c' PS.LF then EmptyString :: Get_Content rest'
            else EmptyString :: Get_Content rest
        | EmptyString => [EmptyString]
        end
      else
        match Get_Content rest with
        | [] => [String c EmptyString]
        | line :: lines => String c line :: lines
        end
  end.

Definition read_file (path : string) : Script (option string) := λ s,
  (Next (files s !! path), s).

(** [$content | Out-File -FilePath $path -Encoding utf8 -Force]: the string
    followed by a line terminator replaces the file. The directory of the
    path is taken to exist, so that the command succeeds. *)
Definition write_file (path content : string) : Script unit := λ s,
  let written := content +:+ PS.nl in
  (Next tt, {| store := store s;
               files := <[path := written]> (files s);
               trace := trace s ++ [Out_File path written] |}).

(** ** The hook, [deployment/hooks/preprovision.ps1] *)

Section Preprovision.

Variable w : World.

(** What [azd env set KEY VALUE] leaves in the environment: the new value
    when the command succeeds, the environment as it was when it fails. *)
Definition store_after_set (key value : string) (env : gmap string string)
  : gmap string string :=
  if azd_env_set_succeeds w key then <[key := value]> env else env.

(** [azd env set KEY VALUE]. The script runs it as a bare native command
    and never looks at its exit code: when it fails the script goes on.
    The command acts on the environment; its rewriting of the file in
    which azd keeps the environment is not traced in [files]. *)
Definition azd_env_set (key value : string) : Script unit := λ s,
  (Next tt, {| store := store_after_set key value (store s);
               files := files s;
               trace := trace s ++ [Azd_env_set key value (azd_env_set_succeeds w key)] |}).

(** Lines 14-25: prerequisites. *)
Definition Validate_prerequisites : Script Account :=
  if az_installed w then
    match az_account_show w with
    | Some account => mret account
    | None =>
        emit (Write_Error "Not logged in to Azure. Run 'azd auth login' or 'az login'");;
        exit 1
    end
  else
    emit (Write_Error "Azure CLI not found. Install from https://aka.ms/azure-cli");;
    exit 1.

(** Lines 28-39: the environment name. *)
Definition Get_envName : Script string :=
  envName ← get_value "AZURE_ENV_NAME";
  let envName := PS.trimmed envName in
  let envName :=
    if PS.IsNullOrWhiteSpace envName then env_AZURE_ENV_NAME w else envName in
  if PS.IsNullOrWhiteSpace envName then
    emit (Write_Error "AZURE_ENV_NAME not set. Run 'azd init' first.");;
    exit 1
  else mret (default EmptyString envName).

(** Lines 41-58: the tenant id, configured or detected from the account. *)
Definition Get_tenantId (account : Account) : Script string :=
  tenantId ← get_value "ENTRA_TENANT_ID";
  let tenantId := PS.trimmed tenantId in
  if PS.IsNullOrWhiteSpace tenantId then
    let tenantId := acc_tenantId account in
    if PS.truthy tenantId then
      azd_env_set "ENTRA_TENANT_ID" (default EmptyString tenantId);;
      mret (default EmptyString tenantId)
    else
      emit (Write_Error "Could not detect tenant ID. Run 'azd env set ENTRA_TENANT_ID <tenant-id>'");;
      exit 1
  else mret (default EmptyString tenantId).

(** Lines 512-531: the handler of the script-wide [try]. *)
Definition Catch {A} (message : string) : Script A :=
  (if PS.matches message "App registration creation failed"
   then emit (Warning "App registration failed. See error details above.")
   else emit (Write_Error ("Unexpected error: " +:+ message)));;
  exit 1.

(** Lines 127-154: the app registration and its client id. *)
Definition Register_app (envName tenantId : string) : Script string :=
  let appName := "ai-foundry-agent-" +:+ envName in
  let serviceManagementRef := env_ENTRA_SERVICE_MANAGEMENT_REFERENCE w in
  let ServiceManagementReference :=
    if PS.IsNullOrWhiteSpace serviceManagementRef then None
    else serviceManagementRef in
  emit (Call_New_EntraAppRegistration appName tenantId ServiceManagementReference);;
  match New_EntraAppRegistration w appName tenantId ServiceManagementReference with
  | Throws message => Catch message
  | Returns clientId =>
      if PS.truthy clientId then
        azd_env_set "ENTRA_SPA_CLIENT_ID" (default EmptyString clientId);;
        mret (default EmptyString clientId)
      else
        emit (Write_Error "Failed to create/retrieve app registration");;
        exit 1
  end.

(** Lines 177-188 and 341-352: the check of the RBAC permissions. *)
Definition Validate_permissions (resourceGroup : string) : Script unit :=
  if az_role_assignment_list w resourceGroup then mret tt
  else emit (Warning "[!]  Warning: You may not have permissions to assign RBAC roles").

(** Lines 169-209: the resource is pre-configured; an agent is looked up
    only when none is configured, and a failed or empty listing is passed
    over in silence. *)
Definition Use_preconfigured
    (existingEndpoint existingResourceGroup existingAgentId : option string)
  : Script unit :=
  Validate_permissions (default EmptyString existingResourceGroup);;
  if negb (PS.IsNullOrWhiteSpace existingAgentId) then mret tt
  else
    let ProjectEndpoint := default EmptyString existingEndpoint in
    emit (Call_Get_AIFoundryAgents ProjectEndpoint);;
    match Get_AIFoundryAgents w ProjectEndpoint with
    | Throws _ => mret tt
    | Returns [] => mret tt
    | Returns (agent :: _) => azd_env_set "AI_AGENT_ID" (agent_name agent)
    end.

(** ** Resource selection, lines 239-290 *)

(** The label block passed to [Select-Index] at line 274. *)
Definition resource_label (res : Resource) : string :=
  res_name res +:+ "  (RG: " +:+ res_resourceGroup res +:+ ", Location: "
    +:+ res_location res +:+ ")".

(** Lines 69-122, [Select-Index]: the index chosen on the host, or -1. *)
Definition Select_Index (Items : list Resource) (Title : string)
    (GetLabel : Resource → string) : Script Z :=
  let Count := Z.of_nat (length Items) in
  selected ←
    match PromptForChoice (host w) with
    | None => mret None
    | Some outcome =>
        let choices :=
          imap (λ i item, "&" +:+ pretty (i + 1)%nat +:+ " " +:+ GetLabel item) Items in
        emit (Call_PromptForChoice Title choices);;
        match outcome with
        | Throws _ => mret None
        | Returns selected =>
            if (0 <=? selected) && (selected <? Count)
            then mret (Some selected) else mret None
        end
    end;
  match selected with
  | Some selected => mret selected
  | None =>
      emit (Call_Read_Host ("Please select (1-" +:+ pretty Count +:+ ")"));;
      match Read_Host (host w) with
      | Throws _ => mret (-1)
      | Returns selection =>
          match PS.TryParse selection with
          | Some selectionNum =>
              if (1 <=? selectionNum) && (selectionNum <=? Count)
              then mret (selectionNum - 1) else mret (-1)
          | None => mret (-1)
          end
      end
  end.

(** Lines 246-247 with the test of lines 249 and 259: the configured
    value as a hint, [None] when it is missing or blank. *)
Definition configured_hint (existing : option string) : option string :=
  let configured := PS.trimmed existing in
  if negb (PS.IsNullOrWhiteSpace configured) then configured else None.

(** Line 250, [Where-Object { $_.name -eq $configuredResourceName }]. *)
Definition Where_name_eq (configuredResourceName : string)
    (aiFoundryResources : list Resource) : list Resource :=
  filter (λ r, PS.eq (res_name r) configuredResourceName = true)
    aiFoundryResources.

(** Line 260,
    [Where-Object { $_.resourceGroup -eq $configuredResourceGroup }]. *)
Definition Where_resourceGroup_eq (configuredResourceGroup : string)
    (aiFoundryResources : list Resource) : list Resource :=
  filter (λ r, PS.eq (res_resourceGroup r) configuredResourceGroup = true)
    aiFoundryResources.

(** Lines 246-269: selection by the configured name, then by the
    configured resource group. *)
Definition Select_configured (aiFoundryResources : list Resource)
    (existingResourceName existingResourceGroup : option string)
  : Script (option Resource) :=
  selectedResource ←
    match configured_hint existingResourceName with
    | Some configuredResourceName =>
        match Where_name_eq configuredResourceName aiFoundryResources with
        | first :: _ => mret (Some first)
        | [] =>
            emit (Warning ("[!]  Configured AI_FOUNDRY_RESOURCE_NAME '"
                           +:+ configuredResourceName
                           +:+ "' not found in current subscription."));;
            mret None
        end
    | None => mret None
    end;
  match selectedResource with
  | Some _ => mret selectedResource
  | None =>
      match configured_hint existingResourceGroup with
      | Some configuredResourceGroup =>
          match Where_resourceGroup_eq configuredResourceGroup aiFoundryResources with
          | [only] => mret (Some only)
          | _ :: _ :: _ =>
              emit (Warning ("[!]  Multiple AI Foundry resources exist in resource group '"
                             +:+ configuredResourceGroup +:+ "'."));;
              mret None
          | [] =>
              emit (Warning ("[!]  Configured AI_FOUNDRY_RESOURCE_GROUP '"
                             +:+ configuredResourceGroup
                             +:+ "' not found in current subscription."));;
              mret None
          end
      | None => mret None
      end
  end.

(** Lines 239-290: one resource is taken as it is; among several, the
    configured name or group decides, then the host is asked, and a host
    that cannot ask yields the first resource with a warning. The list
    is not empty here; [None] stands for indexing an empty array. *)
Definition Select_resource (aiFoundryResources : list Resource)
    (existingResourceName existingResourceGroup : option string)
  : Script (option Resource) :=
  match aiFoundryResources with
  | [only] => mret (Some only)
  | _ =>
      selectedResource ←
        Select_configured aiFoundryResources existingResourceName existingResourceGroup;
      match selectedResource with
      | Some _ => mret selectedResource
      | None =>
          selectedIndex ←
            Select_Index aiFoundryResources "Azure AI Foundry resource selection"
              resource_label;
          if selectedIndex <? 0 then
            emit (Warning "[!]  Unable to prompt for selection (non-interactive host).");;
            emit (Warning "   Falling back to the first resource. To override, set:");;
            mret (aiFoundryResources !! 0%nat)
          else mret (aiFoundryResources !! Z.to_nat selectedIndex)
      end
  end.

Definition no_resources_message : string :=
  String.concat PS.nl [
    "No Azure AI Foundry resources found in subscription.";
    "";
    "To use this application, you need an Azure AI Foundry resource with a project and agent.";
    "";
    "Option 1 - Create a new AI Foundry resource:";
    "  1. Visit https://ai.azure.com";
    "  2. Create a new AI Foundry resource and project";
    "  3. Create an agent in the project";
    "  4. Run 'azd up' again";
    "";
    "Option 2 - Manually configure (if resource is in different subscription):";
    "  azd env set AI_FOUNDRY_RESOURCE_GROUP <resource-group>";
    "  azd env set AI_FOUNDRY_RESOURCE_NAME <resource-name>";
    "  azd env set AI_AGENT_ENDPOINT <endpoint>";
    "  azd env set AI_AGENT_ID <agent-name>";
    "";
    "For more information, visit: https://learn.microsoft.com/azure/ai-foundry" ].

Definition no_projects_message (selectedResource : Resource) : string :=
  String.concat PS.nl [
    "No projects found in AI Foundry resource '" +:+ res_name selectedResource +:+ "'.";
    "";
    "To use this application, you need to create a project and agent:";
    "  1. Visit https://ai.azure.com";
    "  2. Open resource: " +:+ res_name selectedResource;
    "  3. Create a new project";
    "  4. Create an agent in the project";
    "  5. Run 'azd up' again";
    "";
    "For more information, visit: https://learn.microsoft.com/azure/ai-foundry/quickstarts/get-started-code" ].

(** Lines 315-325: the project name and the endpoint built from it. *)
Definition projectName_of (selectedProject : Project) : string :=
  PS.last_item (PS.Split "/" (proj_name selectedProject)).

Definition aiEndpoint_of (selectedResource : Resource) (projectName : string)
  : string :=
  "https://" +:+ res_name selectedResource
    +:+ ".services.ai.azure.com/api/projects/" +:+ projectName.

(** Lines 355-406: the agent, configured or the first one listed; without
    an agent the hook stops. *)
Definition Resolve_agent (aiEndpoint : string) : Script unit :=
  aiAgentId ← get_value "AI_AGENT_ID";
  aiAgentId ←
    (if PS.IsNullOrWhiteSpace aiAgentId then
       emit (Call_Get_AIFoundryAgents aiEndpoint);;
       match Get_AIFoundryAgents w aiEndpoint with
       | Throws _ =>
           emit (Warning "[!]  Could not list agents (API error)");;
           mret aiAgentId
       | Returns [] => mret aiAgentId
       | Returns (agent :: _) =>
           azd_env_set "AI_AGENT_ID" (agent_name agent);;
           mret (Some (agent_name agent))
       end
     else mret aiAgentId);
  if PS.IsNullOrWhiteSpace aiAgentId then
    emit (Warning "[!]  Agent not configured");;
    emit (Write_Error "AI_AGENT_ID is required. Please configure it and run 'azd up' again.");;
    exit 1
  else mret tt.

(** Lines 292-406: the first project of the selected resource, the endpoint
    made from the two names, the three values stored, and the agent. *)
Definition Configure_project (selectedResource : Resource) : Script unit :=
  emit (Call_rest_projects (res_id selectedResource));;
  match az_rest_projects w (res_id selectedResource) with
  | [] => emit (Write_Error (no_projects_message selectedResource));; exit 1
  | selectedProject :: _ =>
      let projectName := projectName_of selectedProject in
      let aiEndpoint := aiEndpoint_of selectedResource projectName in
      azd_env_set "AI_FOUNDRY_RESOURCE_GROUP" (res_resourceGroup selectedResource);;
      azd_env_set "AI_FOUNDRY_RESOURCE_NAME" (res_name selectedResource);;
      azd_env_set "AI_AGENT_ENDPOINT" aiEndpoint;;
      Validate_permissions (res_resourceGroup selectedResource);;
      Resolve_agent aiEndpoint
  end.

(** Lines 211-407: discovery of resource, project and agent. *)
Definition Discover (existingResourceName existingResourceGroup : option string)
  : Script unit :=
  emit Call_account_list;;
  let aiFoundryResources := az_cognitiveservices_account_list w in
  match aiFoundryResources with
  | [] => emit (Write_Error no_resources_message);; exit 1
  | _ =>
      selectedResource ←
        Select_resource aiFoundryResources existingResourceName existingResourceGroup;
      match selectedResource with
      | None => Catch "no resource selected" (* not reached: the index is in range *)
      | Some selectedResource => Configure_project selectedResource
      end
  end.

(** Lines 161-407: the check for a pre-configured resource and the two
    ways on from it. *)
Definition Resolve_resource : Script unit :=
  existingEndpoint ← get_value "AI_AGENT_ENDPOINT";
  existingResourceGroup ← get_value "AI_FOUNDRY_RESOURCE_GROUP";
  existingResourceName ← get_value "AI_FOUNDRY_RESOURCE_NAME";
  existingAgentId ← get_value "AI_AGENT_ID";
  if negb (PS.IsNullOrWhiteSpace existingEndpoint)
     && negb (PS.IsNullOrWhiteSpace existingResourceGroup)
     && negb (PS.IsNullOrWhiteSpace existingResourceName)
  then Use_preconfigured existingEndpoint existingResourceGroup existingAgentId
  else Discover existingResourceName existingResourceGroup.


(** ** File emission, lines 409-493 *)

(** [$existingVars = @{}]: a hashtable; its string keys ignore case and an
    entry keeps the spelling of the key it was created with. It is kept
    here as a map from the upper-cased key to the key and its value;
    [hashtable_set] is [$existingVars[$key] = $value]. *)
Definition hashtable_set (key value : string)
    (table : gmap string (string * string)) : gmap string (string * string) :=
  match table !! PS.ToUpper key with
  | Some (key0, _) => <[PS.ToUpper key := (key0, value)]> table
  | None => <[PS.ToUpper key := (key, value)]> table
  end.

(** The text before and after the first [sep]. *)
Fixpoint break_at (sep : ascii) (s : string) : option (string * string) :=
  match s with
  | EmptyString => None
  | String c s' =>
      if Ascii.eqb c sep then Some (EmptyString, s')
      else (λ p, (String c p.1, p.2)) <$> break_at sep s'
  end.

(** The [-match] of line 426, whose pattern asks for one or more
    characters other than the equals sign, an equals sign and the rest of
    the line: groups 1 and 2 of a line with a non-empty text before its
    first equals sign. *)
Definition match_assignment (line : string) : option (string * string) :=
  match break_at "=" line with
  | Some (String c key, value) => Some (String c key, value)
  | _ => None
  end.

(** Lines 426-428: one turn of the loop over the lines of the file. *)
Definition load_line (table : gmap string (string * string)) (line : string)
  : gmap string (string * string) :=
  match match_assignment line with
  | Some (key, value) => hashtable_set key value table
  | None => table
  end.

(** Lines 423-430: the assignments of the existing file. *)
Definition load_existingVars (lines : list string)
  : gmap string (string * string) :=
  foldl load_line ∅ lines.

(** [Sort-Object] on the keys: a stable sort by the culture's ordering. *)
Fixpoint insert_sorted (entry : string * string)
    (sorted : list (string * string)) : list (string * string) :=
  match sorted with
  | [] => [entry]
  | e :: rest =>
      if culture_le w entry.1 e.1 then entry :: sorted
      else e :: insert_sorted entry rest
  end.

Definition Sort_Object (entries : list (string * string))
  : list (string * string) :=
  foldr insert_sorted [] entries.

Definition set_unless_blank (key : string) (value : option string)
    (table : gmap string (string * string)) : gmap string (string * string) :=
  if negb (PS.IsNullOrWhiteSpace value)
  then hashtable_set key (default EmptyString value) table else table.

(** Lines 432-447: the hook's own variables, set over the existing ones. *)
Definition update_existingVars (clientId tenantId : string)
    (aiEndpoint aiAgentId aiResourceGroup aiResourceName : option string)
    (existingVars : gmap string (string * string))
  : gmap string (string * string) :=
  set_unless_blank "AI_FOUNDRY_RESOURCE_NAME" aiResourceName
    (set_unless_blank "AI_FOUNDRY_RESOURCE_GROUP" aiResourceGroup
      (set_unless_blank "AI_AGENT_ID" aiAgentId
        (set_unless_blank "AI_AGENT_ENDPOINT" aiEndpoint
          (hashtable_set "ENTRA_TENANT_ID" tenantId
            (hashtable_set "ENTRA_SPA_CLIENT_ID" clientId existingVars))))).

(** [$existingVars[$key]] in a string: the value of the entry, nothing for
    a key without entry. *)
Definition hashtable_get (key : string)
    (table : gmap string (string * string)) : string :=
  match table !! PS.ToUpper key with
  | Some (_, value) => value
  | None => EmptyString
  end.

(** Line 451, [foreach ($key in $existingVars.Keys | Sort-Object)]: the
    keys the loop goes through, each with [$existingVars[$key]]. Member
    access on a hashtable finds an entry before it finds a property of the
    class: in a table with an entry named [Keys], in any letter case,
    [$existingVars.Keys] is the value of that entry, one string, and the
    loop has a single turn, for that string. In every other table it is the
    collection of the keys, which [Sort-Object] puts in order. *)
Definition Keys_sorted (existingVars : gmap string (string * string))
  : list (string * string) :=
  match existingVars !! "KEYS" with
  | Some (_, value) => [(value, hashtable_get value existingVars)]
  | None => Sort_Object (snd <$> map_to_list existingVars)
  end.

Definition env_line (entry : string * string) : string :=
  entry.1 +:+ "=" +:+ entry.2 +:+ PS.nl.

(** Lines 450-454: the text of the azd [.env] file. *)
Definition envContent_of (existingVars : gmap string (string * string))
  : string :=
  "# Auto-generated - Do not commit" +:+ PS.nl
    +:+ "# Local development environment variables" +:+ PS.nl +:+ PS.nl
    +:+ String.concat EmptyString (env_line <$> Keys_sorted existingVars).

(** Lines 462-467. *)
Definition frontendEnvContent (clientId tenantId : string) : string :=
  String.concat PS.nl [
    "# Auto-generated by azd preprovision hook";
    "# Used by Vite dev server for local development";
    "VITE_ENTRA_SPA_CLIENT_ID=" +:+ clientId;
    "VITE_ENTRA_TENANT_ID=" +:+ tenantId ].

(** Lines 479-491. *)
Definition backendEnvContent (clientId tenantId : string)
    (aiAgentEndpoint aiAgentId : option string) : string :=
  String.concat PS.nl [
    "# Auto-generated by azd preprovision hook";
    "# Used by ASP.NET Core for local development";
    "# .NET automatically loads .env files in Development environment";
    "AzureAd__Instance=https://login.microsoftonline.com/";
    "AzureAd__TenantId=" +:+ tenantId;
    "AzureAd__ClientId=" +:+ clientId;
    "AzureAd__Audience=api://" +:+ clientId;
    "";
    "# Azure AI Agent Service Configuration";
    "AI_AGENT_ENDPOINT=" +:+ default EmptyString aiAgentEndpoint;
    "AI_AGENT_ID=" +:+ default EmptyString aiAgentId ].

Definition envFilePath_of (envName : string) : string :=
  ".azure/" +:+ envName +:+ "/.env".

Definition frontendEnvPath : string := "frontend/.env.local".
Definition backendEnvPath : string := "backend/WebApp.Api/.env".

(** Lines 409-493: the three files. *)
Definition Write_env_files (envName clientId tenantId : string) : Script unit :=
  let envFilePath := envFilePath_of envName in
  aiEndpoint ← get_value "AI_AGENT_ENDPOINT";
  aiAgentId ← get_value "AI_AGENT_ID";
  aiResourceGroup ← get_value "AI_FOUNDRY_RESOURCE_GROUP";
  aiResourceName ← get_value "AI_FOUNDRY_RESOURCE_NAME";
  existing ← read_file envFilePath;
  let existingVars :=
    match existing with
    | Some content => load_existingVars (Get_Content content)
    | None => ∅
    end in
  let existingVars :=
    update_existingVars clientId tenantId
      aiEndpoint aiAgentId aiResourceGroup aiResourceName existingVars in
  write_file envFilePath (envContent_of existingVars);;
  write_file frontendEnvPath (frontendEnvContent clientId tenantId);;
  aiAgentEndpoint ← get_value "AI_AGENT_ENDPOINT";
  aiAgentId ← get_value "AI_AGENT_ID";
  write_file backendEnvPath (backendEnvContent clientId tenantId aiAgentEndpoint aiAgentId).

(** Lines 11-154: everything before the discovery. *)
Definition Resolve_identity : Script (string * string * string) :=
  account ← Validate_prerequisites;
  envName ← Get_envName;
  tenantId ← Get_tenantId account;
  clientId ← Register_app envName tenantId;
  mret (envName, tenantId, clientId).

(** The whole script. *)
Definition preprovision : Script unit :=
  identity ← Resolve_identity;
  let '(envName, tenantId, clientId) := identity in
  Resolve_resource;;
  Write_env_files envName clientId tenantId.

(** The exit code of a run of the script and the state it leaves. *)
Definition run (s : State) : Z * State :=
  match preprovision s with
  | (Next _, s') => (0, s')
  | (Exit code, s') => (code, s')
  end.

End Preprovision.

Arguments store_after_set : simpl never.

(** ** The chat endpoint, [server/index.js] *)

Module Server.

(** JavaScript values as far as parsed JSON and [undefined] go. The
    handler never computes with a number: it tests it for zero and prints
    it. A number is kept as the text JavaScript prints for it, such as
    [500], [0.7] or [1e+21]; both zeros print as [0]. *)
#[warnings="-register-all"]
Inductive js :=
  | undefined
  | null
  | JBool (b : bool)
  | JNum (text : string)
  | JStr (s : string)
  | JArr (items : list js)
  | JObj (fields : list (string * js)).

(** The truth value of a value in a condition; [!v] is its negation. *)
Definition ToBoolean (v : js) : bool :=
  match v with
  | undefined | null => false
  | JBool b => b
  | JNum text => negb (String.eqb text "0" || String.eqb text "NaN")
  | JStr s => negb (String.eqb s EmptyString)
  | JArr _ | JObj _ => true
  end.

(** A field of a parsed object; of a repeated name the last one counts. *)
Definition field (name : string) (fields : list (string * js)) : js :=
  foldl (λ found kv, if String.eqb kv.1 name then kv.2 else found)
    undefined fields.

(** [v.name] for a name that no array, string, number or boolean has:
    a [TypeError] on [undefined] and [null]. *)
Definition get (v : js) (name : string) : attempt js :=
  match v with
  | undefined | null => Throws "TypeError"
  | JObj fields => Returns (field name fields)
  | _ => Returns undefined
  end.

(** [v?.name] *)
Definition get_opt (v : js) (name : string) : js :=
  match get v name with
  | Throws _ => undefined
  | Returns x => x
  end.

(** [v[0]] *)
Definition first (v : js) : attempt js :=
  match v with
  | undefined | null => Throws "TypeError"
  | JArr items => Returns (default undefined (head items))
  | JStr (String c _) => Returns (JStr (String c EmptyString))
  | JObj fields => Returns (field "0" fields)
  | _ => Returns undefined
  end.

(** [a || b] *)
Definition or_else (a b : js) : js := if ToBoolean a then a else b.

(** The text a template literal puts for a value. *)
Fixpoint ToString (v : js) : string :=
  match v with
  | undefined => "undefined"
  | null => "null"
  | JBool b => if b then "true" else "false"
  | JNum text => text
  | JStr s => s
  | JArr items =>
      String.concat ","
        (map (λ item, match item with
                      | undefined | null => EmptyString
                      | _ => ToString item
                      end) items)
  | JObj _ => "[object Object]"
  end.

Record Response := { status : Z; body : js }.

(** What [fetch] resolves to: [response.ok], [response.status] and the
    outcome of [response.json()]. *)
Record FetchResponse := {
  ok : bool;
  fetch_status : Z;
  json : attempt js
}.

(** A call of the upstream completion API. *)
Record UpstreamCall := {
  url : string;
  Authorization : string;
  request_body : js
}.

Section Handler.

(** [process.env] after [dotenv] has run, and the behaviour of [fetch]. *)
Variable env : gmap string string.
Variable fetch : UpstreamCall → attempt FetchResponse.

(** [process.env.NAME] *)
Definition process_env (name : string) : js :=
  match env !! name with
  | Some v => JStr v
  | None => undefined
  end.

(** Lines 79-85: the [catch] of the handler. *)
Definition internal_error : Response :=
  {| status := 500;
     body := JObj [("error", JStr "Internal server error");
                   ("reply", JStr "Sorry, something went wrong. Please try again.")] |}.

(** Lines 42-63: the request sent upstream. *)
Definition completion_request (apiKey message : js) : UpstreamCall :=
  {| url := "https://api.openai.com/v1/chat/completions";
     Authorization := "Bearer " +:+ ToString apiKey;
     request_body :=
       JObj [("model", JStr "gpt-4o-mini");
             ("messages",
              JArr [JObj [("role", JStr "system");
                          ("content", JStr "You are a helpful AI assistant named Mazhar.")];
                    JObj [("role", JStr "user"); ("content", message)]]);
             ("temperature", JNum "0.7");
             ("max_tokens", JNum "500")] |}.

(** Lines 65-77: the answer made from the upstream response. *)
Definition answer (response : FetchResponse) : Response :=
  match json response with
  | Throws _ => internal_error
  | Returns data =>
      if negb (ok response) then
        match get data "error" with
        | Throws _ => internal_error
        | Returns error =>
            {| status := fetch_status response;
               body := JObj [("error", JStr "OpenAI API error");
                             ("reply", JStr ("Error from OpenAI: " +:+
                                ToString (or_else (get_opt error "message")
                                            (JStr "Unknown error"))))] |}
        end
      else
        match get data "choices" with
        | Throws _ => internal_error
        | Returns choices =>
            match first choices with
            | Throws _ => internal_error
            | Returns choice =>
                let reply :=
                  or_else (get_opt (get_opt choice "message") "content")
                    (JStr "No response generated") in
                {| status := 200; body := JObj [("reply", reply)] |}
            end
        end
  end.

(** Lines 24-86: [POST /api/chat]. The result is the response and the
    upstream calls made. *)
Definition post_api_chat (req_body : js) : Response * list UpstreamCall :=
  match get req_body "message" with
  | Throws _ => (internal_error, [])
  | Returns message =>
      if negb (ToBoolean message) then
        ({| status := 400; body := JObj [("error", JStr "Message is required")] |}, [])
      else
        let apiKey := process_env "OPENAI_API_KEY" in
        if negb (ToBoolean apiKey) then
          ({| status := 500;
              body := JObj [("error", JStr "OpenAI API key not configured");
                            ("reply", JStr "Server configuration error: Missing OPENAI_API_KEY environment variable")] |},
           [])
        else
          let call := completion_request apiKey message in
          match fetch call with
          | Throws _ => (internal_error, [call])
          | Returns response => (answer response, [call])
          end
  end.

End Handler.

End Server.

(** ** Vocabulary of the statements *)

(** [changes K P s s']: from [s] to [s'] no file changed, only the keys [K]
    of the azd environment changed, and every event added satisfies [P]. *)
Definition changes (K : string → Prop) (P : event → Prop) (s s' : State)
  : Prop :=
  files s' = files s ∧
  (∀ k, ¬ K k → store s' !! k = store s !! k) ∧
  ∃ evs, trace s' = trace s ++ evs ∧ Forall P evs.

(** A script respects [R] when [R] relates every state to the state the
    script leaves, whether it returns or exits. *)
Definition respects {A} (R : State → State → Prop) (m : Script A) : Prop :=
  ∀ s, R s (m s).2.

(** A listing of the resources or of the projects; a listing of the agents;
    the writing of a file; a question to the host. *)
Definition is_listing (e : event) : Prop :=
  match e with
  | Call_account_list | Call_rest_projects _ => True
  | _ => False
  end.

Definition is_agent_listing (e : event) : Prop :=
  match e with
  | Call_Get_AIFoundryAgents _ => True
  | _ => False
  end.

Definition is_Out_File (e : event) : Prop :=
  match e with
  | Out_File _ _ => True
  | _ => False
  end.

Definition is_prompt (e : event) : Prop :=
  match e with
  | Call_PromptForChoice _ _ | Call_Read_Host _ => True
  | _ => False
  end.

(** The events of the identity phase: messages, writes to the environment
    and the call of the registration module. *)
Definition identity_event (e : event) : Prop :=
  match e with
  | Write_Error _ | Warning _ | Azd_env_set _ _ _
  | Call_New_EntraAppRegistration _ _ _ => True
  | _ => False
  end.

Definition identity_key (k : string) : Prop :=
  k ∈ ["ENTRA_TENANT_ID"; "ENTRA_SPA_CLIENT_ID"].

(** A host on which nothing can be asked: [PromptForChoice] is missing or
    raises, and [Read-Host] raises. *)
Definition non_interactive (h : PSHost) : Prop :=
  (PromptForChoice h = None ∨ ∃ m, PromptForChoice h = Some (Throws m)) ∧
  ∃ m, Read_Host h = Throws m.

(** The events a run adds to the trace. *)
Definition new_events (w : World) (s : State) : list event :=
  drop (length (trace s)) (trace (run w s).2).

(** The test of lines 166-168 on an azd environment: endpoint, resource
    group and resource name are all read back as non-blank. *)
Definition preconfigured (env : gmap string string) : bool :=
  negb (PS.IsNullOrWhiteSpace (azd_env_get_value env "AI_AGENT_ENDPOINT"))
  && negb (PS.IsNullOrWhiteSpace (azd_env_get_value env "AI_FOUNDRY_RESOURCE_GROUP"))
  && negb (PS.IsNullOrWhiteSpace (azd_env_get_value env "AI_FOUNDRY_RESOURCE_NAME")).

(** The test of lines 190 and 357: an agent id is read back as non-blank. *)
Definition agent_configured (env : gmap string string) : bool :=
  negb (PS.IsNullOrWhiteSpace (azd_env_get_value env "AI_AGENT_ID")).

(** Every [exit] a script takes has code 1. *)
Definition exits_with_1 {A} (m : Script A) : Prop :=
  ∀ s code s', m s = (Exit code, s') → code = 1.

(** The keys the discovery may set. *)
Definition discovery_key (k : string) : Prop :=
  k ∈ ["AI_FOUNDRY_RESOURCE_GROUP"; "AI_FOUNDRY_RESOURCE_NAME";
       "AI_AGENT_ENDPOINT"; "AI_AGENT_ID"].


Definition with_resources (w : World) (resources : list Resource) : World :=
  {| az_installed := az_installed w;
     az_account_show := az_account_show w;
     env_AZURE_ENV_NAME := env_AZURE_ENV_NAME w;
     env_ENTRA_SERVICE_MANAGEMENT_REFERENCE := env_ENTRA_SERVICE_MANAGEMENT_REFERENCE w;
     New_EntraAppRegistration := New_EntraAppRegistration w;
     az_cognitiveservices_account_list := resources;
     az_rest_projects := az_rest_projects w;
     Get_AIFoundryAgents := Get_AIFoundryAgents w;
     az_role_assignment_list := az_role_assignment_list w;
     azd_env_set_succeeds := azd_env_set_succeeds w;
     host := host w;
     culture_le := culture_le w |}.

Definition with_set_succeeds (w : World) (succeeds : string → bool) : World :=
  {| az_installed := az_installed w;
     az_account_show := az_account_show w;
     env_AZURE_ENV_NAME := env_AZURE_ENV_NAME w;
     env_ENTRA_SERVICE_MANAGEMENT_REFERENCE := env_ENTRA_SERVICE_MANAGEMENT_REFERENCE w;
     New_EntraAppRegistration := New_EntraAppRegistration w;
     az_cognitiveservices_account_list := az_cognitiveservices_account_list w;
     az_rest_projects := az_rest_projects w;
     Get_AIFoundryAgents := Get_AIFoundryAgents w;
     az_role_assignment_list := az_role_assignment_list w;
     azd_env_set_succeeds := succeeds;
     host := host w;
     culture_le := culture_le w |}.


(** ** A sample world

    Two resources [X] and [Y], one project, one agent, an account with a
    tenant, a host that cannot ask, and ordinal ordering of keys. *)

Definition resource_X : Resource :=
  {| res_name := "X"; res_resourceGroup := "rg-x"; res_location := "eastus";
     res_id := "/subscriptions/sub/resourceGroups/rg-x/providers/Microsoft.CognitiveServices/accounts/X" |}.

Definition resource_Y : Resource :=
  {| res_name := "Y"; res_resourceGroup := "rg-y"; res_location := "westus";
     res_id := "/subscriptions/sub/resourceGroups/rg-y/providers/Microsoft.CognitiveServices/accounts/Y" |}.

Definition headless : PSHost :=
  {| PromptForChoice := None; Read_Host := Throws "no input" |}.

Definition sample_world : World :=
  {| az_installed := true;
     az_account_show :=
       Some {| acc_user_name := "dev@contoso.com"; acc_tenantId := Some "tenant-1";
               acc_id := "sub" |};
     env_AZURE_ENV_NAME := Some "dev";
     env_ENTRA_SERVICE_MANAGEMENT_REFERENCE := None;
     New_EntraAppRegistration := λ _ _ _, Returns (Some "abc");
     az_cognitiveservices_account_list := [resource_X; resource_Y];
     az_rest_projects := λ _, [ {| proj_name := "X/proj" |} ];
     Get_AIFoundryAgents := λ _, Returns [ {| agent_name := "agent-1" |} ];
     az_role_assignment_list := λ _, true;
     azd_env_set_succeeds := λ _, true;
     host := headless;
     culture_le := λ a b, bool_decide (a ≤ b)%string |}.

Definition empty_state : State :=
  {| store := ∅; files := ∅; trace := [] |}.


Definition world_with_Y_only : World := with_resources sample_world [resource_Y].


(** The azd environment the pre-configured path leaves behind: untouched
    when an agent is configured, else with the first listed agent, if any
    and if the write goes through. *)
Definition store_after_preconfigured (w : World) (env : gmap string string)
  : gmap string string :=
  if agent_configured env then env
  else
    match Get_AIFoundryAgents w
            (default EmptyString (azd_env_get_value env "AI_AGENT_ENDPOINT")) with
    | Returns (agent :: _) => store_after_set w "AI_AGENT_ID" (agent_name agent) env
    | _ => env
    end.


(** Whether the character [c] occurs in [s]. *)
Fixpoint has_char (c : ascii) (s : string) : bool :=
  match s with
  | EmptyString => false
  | String c' s' => Ascii.eqb c' c || has_char c s'
  end.

(** The keys the hook sets in the azd [.env] file, lines 433-447. *)
Definition hook_keys : list string :=
  ["ENTRA_SPA_CLIENT_ID"; "ENTRA_TENANT_ID"; "AI_AGENT_ENDPOINT"; "AI_AGENT_ID";
   "AI_FOUNDRY_RESOURCE_GROUP"; "AI_FOUNDRY_RESOURCE_NAME"].

(** Every entry of a hashtable sits under its own key, upper-cased. *)
Definition well_keyed (table : gmap string (string * string)) : Prop :=
  ∀ K key value, table !! K = Some (key, value) → PS.ToUpper key = K.

(** A state in which all three files exist, each with a setting [FOO] added
    by hand. *)
Definition state_with_files : State :=
  {| store := ∅;
     files := {[ envFilePath_of "dev" := "FOO=bar" +:+ PS.nl;
                 frontendEnvPath := "FOO=bar" +:+ PS.nl;
                 backendEnvPath := "FOO=bar" +:+ PS.nl ]};
     trace := [] |}.

(** The paths of the files written, in order. *)
Definition paths_written (evs : list event) : list string :=
  omap (λ e, match e with Out_File path _ => Some path | _ => None end) evs.

(** Two states agree on [keys] when the azd environments hold the same for
    each of them and the same files have been written so far. *)
Definition agree (keys : list string) (s s' : State) : Prop :=
  (∀ k, k ∈ keys → store s !! k = store s' !! k) ∧
  paths_written (trace s) = paths_written (trace s').

(** The keys on which the states must still agree after a step: those of
    [post] when the script goes on, none when it has exited. *)
Definition keys_after {A} (r : step A) (post : list string) : list string :=
  match r with
  | Next _ => post
  | Exit _ => []
  end.

(** Two scripts are related from [pre] to [post] when, started in states
    that agree on [pre], they return or exit alike and leave states that
    agree on [post] (on the files written only, after an exit). *)
Definition related {A} (pre post : list string) (m m' : Script A) : Prop :=
  ∀ s s', agree pre s s' →
    (m s).1 = (m' s').1 ∧ agree (keys_after (m s).1 post) (m s).2 (m' s').2.

(** The keys read before the discovery, the keys of the discovery, and the
    agent id alone. *)
Definition keys_read : list string :=
  ["AZURE_ENV_NAME"; "ENTRA_TENANT_ID"; "AI_AGENT_ENDPOINT";
   "AI_FOUNDRY_RESOURCE_GROUP"; "AI_FOUNDRY_RESOURCE_NAME"; "AI_AGENT_ID"].

Definition keys_discovery : list string :=
  ["AI_AGENT_ENDPOINT"; "AI_FOUNDRY_RESOURCE_GROUP"; "AI_FOUNDRY_RESOURCE_NAME";
   "AI_AGENT_ID"].

Definition keys_agent : list string := ["AI_AGENT_ID"].

(** The sample world in which no write to the azd environment goes
    through. *)
Definition world_without_storage : World :=
  with_set_succeeds sample_world (λ _, false).

(** ** Vocabulary of the further properties *)

(** The keys the hook ever writes to the azd environment. *)
Definition written_key (k : string) : Prop := identity_key k ∨ discovery_key k.

(** The azd environment after the writes recorded in a list of events: the
    writes that went through, applied in order. *)
Definition apply_sets (evs : list event) (env : gmap string string)
  : gmap string string :=
  foldl (λ env e,
           match e with
           | Azd_env_set key value true => <[key := value]> env
           | _ => env
           end) env evs.

(** From [s] to [s'] events were added, and the azd environment changed by
    the writes among them and by nothing else. *)
Definition follows_trace (s s' : State) : Prop :=
  ∃ evs, trace s' = trace s ++ evs ∧ store s' = apply_sets evs (store s).

(** The events added all satisfy [P]. *)
Definition adds (P : event → Prop) (s s' : State) : Prop :=
  ∃ evs, trace s' = trace s ++ evs ∧ Forall P evs.

(** The events of the phases after the identity: no registration, and
    writes to the keys of the discovery only. *)
Definition later_event (e : event) : Prop :=
  match e with
  | Call_New_EntraAppRegistration _ _ _ => False
  | Azd_env_set key _ _ => discovery_key key
  | _ => True
  end.


(** The events added from one state to a later one. *)
Definition events_between (s s' : State) : list event :=
  drop (length (trace s)) (trace s').






(** [w] on another host. *)
Definition with_host (w : World) (h : PSHost) : World :=
  {| az_installed := az_installed w;
     az_account_show := az_account_show w;
     env_AZURE_ENV_NAME := env_AZURE_ENV_NAME w;
     env_ENTRA_SERVICE_MANAGEMENT_REFERENCE := env_ENTRA_SERVICE_MANAGEMENT_REFERENCE w;
     New_EntraAppRegistration := New_EntraAppRegistration w;
     az_cognitiveservices_account_list := az_cognitiveservices_account_list w;
     az_rest_projects := az_rest_projects w;
     Get_AIFoundryAgents := Get_AIFoundryAgents w;
     az_role_assignment_list := az_role_assignment_list w;
     azd_env_set_succeeds := azd_env_set_succeeds w;
     host := h;
     culture_le := culture_le w |}.

(** The sample world on a console without [PromptForChoice], on which the
    second item is typed in. *)
Definition world_with_console : World :=
  with_host sample_world
    {| PromptForChoice := None; Read_Host := Returns " 2 " |}.

(** [w] without a login to Azure. *)
Definition logged_out (w : World) : World :=
  {| az_installed := az_installed w;
     az_account_show := None;
     env_AZURE_ENV_NAME := env_AZURE_ENV_NAME w;
     env_ENTRA_SERVICE_MANAGEMENT_REFERENCE := env_ENTRA_SERVICE_MANAGEMENT_REFERENCE w;
     New_EntraAppRegistration := New_EntraAppRegistration w;
     az_cognitiveservices_account_list := az_cognitiveservices_account_list w;
     az_rest_projects := az_rest_projects w;
     Get_AIFoundryAgents := Get_AIFoundryAgents w;
     az_role_assignment_list := az_role_assignment_list w;
     azd_env_set_succeeds := azd_env_set_succeeds w;
     host := host w;
     culture_le := culture_le w |}.

(** An upstream API that refuses every call for the rate of the calls. *)
Definition rate_limit_response : Server.FetchResponse :=
  {| Server.ok := false;
     Server.fetch_status := 429;
     Server.json :=
       Returns (Server.JObj
                  [("error",
                    Server.JObj [("message", Server.JStr "Rate limit reached")])]) |}.

Definition rate_limited (call : Server.UpstreamCall)
  : attempt Server.FetchResponse :=
  Returns rate_limit_response.

(** ** The chat page, [client/src/App.jsx] *)

Module Client.

(** An entry of the conversation: the role and the content shown. The
    entry of the assistant is made by the function passed to
    [setConversation], so its [data.reply] is read when React runs that
    function, outside of the [try] block: [content] is the outcome of that
    read, and an entry whose content raises cannot be rendered. *)
Inductive role := user | assistant.

Record Entry := { entry_role : role; content : attempt Server.js }.

(** The four state variables of [App]; [error] is [null] or the message
    of the error caught. *)
Record AppState := {
  message : string;
  conversation : list Entry;
  loading : bool;
  error : option string
}.

(** What the page passes to [fetch]; [body] is the object given to
    [JSON.stringify]. *)
Record Request := { url : string; method : string; body : Server.js }.

(** What [fetch] resolves to: [response.ok] and the outcome of
    [response.json()]. *)
Record FetchResponse := { ok : bool; json : attempt Server.js }.

(** The white space and the line terminators of JavaScript beyond ASCII,
    as the UTF-8 sequences a byte string holds for them: of two bytes
    U+00A0; of three bytes U+1680, U+2000 to U+200A, U+2028, U+2029, U+202F,
    U+205F, U+3000 and U+FEFF. *)
Definition white2 (a b : ascii) : bool :=
  let '(a, b) := (Ascii.N_of_ascii a, Ascii.N_of_ascii b) in
  ((a =? 194) && (b =? 160))%N.

Definition white3 (a b c : ascii) : bool :=
  let '(a, b, c) :=
    (Ascii.N_of_ascii a, Ascii.N_of_ascii b, Ascii.N_of_ascii c) in
  ((a =? 225) && (b =? 154) && (c =? 128)
   || (a =? 226) && (b =? 128) &&
      ((128 <=? c) && (c <=? 138) || (c =? 168) || (c =? 169) || (c =? 175))
   || (a =? 226) && (b =? 129) && (c =? 159)
   || (a =? 227) && (b =? 128) && (c =? 128)
   || (a =? 239) && (b =? 187) && (c =? 191))%N.

(** The text without the white space it starts with: the six characters of
    ASCII, U+0009 to U+000D and the space, and the sequences above. Read
    [backwards], the text is a reversed one, in which the bytes of a
    sequence come last byte first. *)
Fixpoint skip_white (backwards : bool) (s : string) : string :=
  match s with
  | String a rest1 =>
      if Ascii.is_space a then skip_white backwards rest1
      else
        match rest1 with
        | String b rest2 =>
            if (if backwards then white2 b a else white2 a b)
            then skip_white backwards rest2
            else
              match rest2 with
              | String c rest3 =>
                  if (if backwards then white3 c b a else white3 a b c)
                  then skip_white backwards rest3
                  else s
              | EmptyString => s
              end
        | EmptyString => s
        end
  | EmptyString => s
  end.

(** [s.trim()]: [s] without the white space and the line terminators at
    its two ends. *)
Definition trim (s : string) : string :=
  String.rev (skip_white true (String.rev (skip_white false s))).

Section App.

(** [fetch]; it rejects with the message it raises. *)
Variable fetch : Request → attempt FetchResponse.

(** Lines 23-29. *)
Definition chat_request (userMessage : string) : Request :=
  {| url := "/api/chat";
     method := "POST";
     body := Server.JObj [("message", Server.JStr userMessage)] |}.

(** Lines 22-41, the [try] block: the entry of the assistant, or the
    message of the error thrown in it. The message of the [TypeError] of
    a property read on [null] or [undefined] is the one of [Server.get]. *)
Definition exchange (userMessage : string) : Entry + string :=
  match fetch (chat_request userMessage) with
  | Throws m => inr m
  | Returns response =>
      match json response with
      | Throws m => inr m
      | Returns data =>
          if negb (ok response) then
            match Server.get data "reply" with
            | Throws m => inr m
            | Returns reply =>
                if Server.ToBoolean reply then inr (Server.ToString reply)
                else
                  match Server.get data "error" with
                  | Throws m => inr m
                  | Returns error =>
                      inr (Server.ToString
                             (Server.or_else error
                                (Server.JStr "Failed to get response")))
                  end
            end
          else inl {| entry_role := assistant;
                      content := Server.get data "reply" |}
      end
  end.

(** The state while the request is under way, lines 15-20. *)
Definition pending (st : AppState) (userMessage : string) : AppState :=
  {| message := "";
     conversation :=
       conversation st ++
       [{| entry_role := user; content := Returns (Server.JStr userMessage) |}];
     loading := true;
     error := None |}.

(** Lines 9-46, [handleSubmit]: the state once the handler is through, and
    the requests made. *)
Definition handleSubmit (st : AppState) : AppState * list Request :=
  if String.eqb (trim (message st)) "" then (st, [])
  else
    let userMessage := trim (message st) in
    let st := pending st userMessage in
    match exchange userMessage with
    | inl entry =>
        ({| message := message st;
            conversation := conversation st ++ [entry];
            loading := false;
            error := error st |},
         [chat_request userMessage])
    | inr m =>
        ({| message := message st;
            conversation := conversation st;
            loading := false;
            error := Some m |},
         [chat_request userMessage])
    end.

End App.

(** Line 93 and line 96: the text field and the button are disabled. *)
Definition input_disabled (st : AppState) : bool := loading st.

Definition send_disabled (st : AppState) : bool :=
  loading st || String.eqb (trim (message st)) "".

(** [response.ok]: a status from 200 to 299. *)
Definition status_ok (status : Z) : bool := (200 <=? status) && (status <=? 299).

(** The page in front of the chat endpoint: the request body arrives as
    it was sent, and the answer comes back with its status and its body. *)
Definition served (env : gmap string string)
    (upstream : Server.UpstreamCall → attempt Server.FetchResponse)
    (request : Request) : attempt FetchResponse :=
  let response := (Server.post_api_chat env upstream (body request)).1 in
  Returns {| ok := status_ok (Server.status response);
             json := Returns (Server.body response) |}.

End Client.

(** A no-break space, U+00A0, and a line separator, U+2028. *)
Definition no_break_space : string :=
  String (Ascii.ascii_of_nat 194) (String (Ascii.ascii_of_nat 160) "").

Definition line_separator : string :=
  String (Ascii.ascii_of_nat 226)
    (String (Ascii.ascii_of_nat 128) (String (Ascii.ascii_of_nat 168) "")).

(** A page on which only blanks have been typed, and one on which
    [ hello ] has been typed after an error. *)
Definition page_with_blanks : Client.AppState :=
  {| Client.message := "   "; Client.conversation := [];
     Client.loading := false; Client.error := None |}.

Definition page_with_hello : Client.AppState :=
  {| Client.message := " hello "; Client.conversation := [];
     Client.loading := false; Client.error := Some "Failed to fetch" |}.

(** A text that holds no end of a line: neither a line feed nor a carriage
    return. *)
Definition one_line (v : string) : Prop :=
  has_char PS.LF v = false ∧ has_char PS.CR v = false.

(** A table as the hook builds it from a file: every entry sits under its
    key, upper-cased; the keys are not empty and hold no equals sign; keys
    and values hold no end of a line. *)
Definition clean (table : gmap string (string * string)) : Prop :=
  ∀ K key value, table !! K = Some (key, value) →
    PS.ToUpper key = K ∧ key ≠ "" ∧ has_char "=" key = false ∧
    one_line key ∧ one_line value.

(** The table the file emission starts from, lines 423-430. *)
Definition existingVars_of (envName : string) (s : State)
  : gmap string (string * string) :=
  match files s !! envFilePath_of envName with
  | Some content => load_existingVars (Get_Content content)
  | None => ∅
  end.

(** Lines 11-407: the script up to the file emission. *)
Definition before_emission (w : World) : Script (string * string * string) :=
  identity ← Resolve_identity w;
  Resolve_resource w;;
  mret identity.

(** A script that stops with one error message and nothing else done. *)
Definition stops_with_error (s s1 : State) : Prop :=
  store s1 = store s ∧ files s1 = files s ∧
  ∃ message, trace s1 = trace s ++ [Write_Error message].


Definition is_Read_Host (e : event) : Prop :=
  match e with
  | Call_Read_Host _ => True
  | _ => False
  end.



(** The host gives the item number [k], counted from 0: [PromptForChoice]
    returns it or, when [PromptForChoice] is not there, raises or returns
    something out of range, [Read-Host] returns a text for the number
    [k + 1]. *)
Definition host_answers (h : PSHost) (Count : nat) (k : nat) : Prop :=
  PromptForChoice h = Some (Returns (Z.of_nat k)) ∨
  ((PromptForChoice h = None ∨
    (∃ m, PromptForChoice h = Some (Throws m)) ∨
    (∃ i, PromptForChoice h = Some (Returns i) ∧ ¬ (0 ≤ i < Z.of_nat Count))) ∧
   ∃ answer, Read_Host h = Returns answer ∧
             PS.TryParse answer = Some (Z.of_nat k + 1)).

(** The entries of a table as the lines of the file, in the order in which
    they are written for a table without an entry named [Keys]. *)
Definition entry_lines (w : World) (table : gmap string (string * string))
  : list string :=
  (λ e, e.1 +:+ "=" +:+ e.2) <$> Sort_Object w (snd <$> map_to_list table).


(** * Properties *)

(** ** The primitives on examples *)

Example Trim_example : PS.Trim "  my-env  " = "my-env".
Proof. reflexivity. Qed.

Example IsNullOrWhiteSpace_example :
  PS.IsNullOrWhiteSpace None = true ∧
  PS.IsNullOrWhiteSpace (Some " ") = true ∧
  PS.IsNullOrWhiteSpace (Some "rg") = false.
Proof. done. Qed.

Example eq_ignores_case : PS.eq "My-Resource" "my-resource" = true.
Proof. reflexivity. Qed.

Example Split_example :
  PS.Split "/" "accounts/X/projects/proj" = ["accounts"; "X"; "projects"; "proj"] ∧
  PS.last_item (PS.Split "/" "proj") = "proj" ∧
  PS.last_item (PS.Split "/" "X/") = "".
Proof. done. Qed.

Example TryParse_example :
  PS.TryParse " 12 " = Some 12 ∧ PS.TryParse "-3" = Some (-3) ∧
  PS.TryParse "two" = None ∧ PS.TryParse "" = None ∧
  PS.TryParse "4294967296" = None.
Proof. done. Qed.

(** A missing key reads as [$null]; so does a value with the text ERROR in
    it, in any case; any other value reads as itself. *)
Example azd_env_get_value_example :
  let env : gmap string string :=
    {[ "AI_AGENT_ID" := "support-agent";
       "AI_FOUNDRY_RESOURCE_GROUP" := "rg-error-budget" ]} in
  azd_env_get_value env "AI_AGENT_ID" = Some "support-agent" ∧
  azd_env_get_value env "AI_AGENT_ENDPOINT" = None ∧
  azd_env_get_value env "AI_FOUNDRY_RESOURCE_GROUP" = None.
Proof. vm_compute. done. Qed.

Example Get_Content_example :
  Get_Content ("A=1" +:+ PS.nl +:+ "# note" +:+ PS.nl) = ["A=1"; "# note"] ∧
  Get_Content ("A=1" +:+ String PS.CR PS.nl +:+ String PS.CR "B=2") = ["A=1"; ""; "B=2"] ∧
  Get_Content "" = [].
Proof. done. Qed.

Example match_assignment_example :
  match_assignment "FOO=bar=baz" = Some ("FOO", "bar=baz") ∧
  match_assignment "=bar" = None ∧
  match_assignment "# Auto-generated - Do not commit" = None.
Proof. done. Qed.

(** The sample world on an empty azd environment: the host cannot ask, the
    first resource is taken, and the run completes. *)
Example sample_run :
  (run sample_world empty_state).1 = 0 ∧
  store (run sample_world empty_state).2 =
    {[ "ENTRA_TENANT_ID" := "tenant-1";
       "ENTRA_SPA_CLIENT_ID" := "abc";
       "AI_FOUNDRY_RESOURCE_GROUP" := "rg-x";
       "AI_FOUNDRY_RESOURCE_NAME" := "X";
       "AI_AGENT_ENDPOINT" := "https://X.services.ai.azure.com/api/projects/proj";
       "AI_AGENT_ID" := "agent-1" ]}.
Proof. split; vm_compute; reflexivity. Qed.

(** ** Reasoning about scripts *)

Ltac script_simpl :=
  unfold mbind, mret, Script_bind, Script_ret, exit, emit, get_value,
    read_file, write_file in *;
  simpl in *.

Section Changes.

Context (K : string → Prop) (P : event → Prop).

Lemma changes_refl s : changes K P s s.
Proof. split_and!; [done..|]. exists []. by rewrite app_nil_r. Qed.

Lemma changes_trans s1 s2 s3 :
  changes K P s1 s2 → changes K P s2 s3 → changes K P s1 s3.
Proof.
  intros (Hf1 & Hs1 & evs1 & Ht1 & HP1) (Hf2 & Hs2 & evs2 & Ht2 & HP2).
  split_and!; [congruence | intros k Hk; rewrite Hs2, Hs1; done |].
  exists (evs1 ++ evs2). rewrite Ht2, Ht1, app_assoc. split; [done|].
  by apply Forall_app.
Qed.

Lemma respects_ret {A} (a : A) : respects (changes K P) (mret a).
Proof. intros s. apply changes_refl. Qed.

Lemma respects_exit {A} code : respects (changes K P) (@exit A code).
Proof. intros s. apply changes_refl. Qed.

Lemma respects_get_value key : respects (changes K P) (get_value key).
Proof. intros s. apply changes_refl. Qed.

Lemma respects_bind {A B} (m : Script A) (f : A → Script B) :
  respects (changes K P) m → (∀ a, respects (changes K P) (f a)) →
  respects (changes K P) (m ≫= f).
Proof.
  intros Hm Hf s. unfold mbind, Script_bind.
  specialize (Hm s). destruct (m s) as [[a|code] s1]; [|done].
  eapply changes_trans; [done|]. apply Hf.
Qed.

Lemma respects_emit e : P e → respects (changes K P) (emit e).
Proof.
  intros He s. split_and!; [done..|]. exists [e]. split; [done|].
  by constructor.
Qed.

Lemma respects_azd_env_set w key value :
  K key → (∀ stored, P (Azd_env_set key value stored)) →
  respects (changes K P) (azd_env_set w key value).
Proof.
  intros Hk He s. split_and!; [done| |].
  - intros k Hnk. simpl. unfold store_after_set. case_match; [|done].
    apply lookup_insert_ne. by intros ->.
  - eexists [_]. split; [done|]. by constructor.
Qed.

End Changes.

Lemma changes_mono (K K' : string → Prop) (P P' : event → Prop) s s' :
  (∀ k, K k → K' k) → (∀ e, P e → P' e) →
  changes K P s s' → changes K' P' s s'.
Proof.
  intros HK HP (Hf & Hs & evs & Ht & Hevs). split_and!; [done | |].
  - intros k Hk. apply Hs. naive_solver.
  - exists evs. split; [done|]. eapply Forall_impl; eauto.
Qed.

(** Closes a goal [K k] for a literal key [k] and a literal list of keys
    behind [K]. *)
Ltac is_key := solve [repeat first [left | right]].

Ltac respects_step :=
  first
    [ apply respects_bind; [|intros]
    | apply respects_ret
    | apply respects_exit
    | apply respects_get_value
    | apply respects_emit; solve [done | simpl; tauto]
    | apply respects_azd_env_set; solve [done | simpl; tauto | is_key]
    | case_match ].

Lemma Resolve_identity_changes w :
  respects (changes identity_key identity_event) (Resolve_identity w).
Proof.
  unfold Resolve_identity, Validate_prerequisites, Get_envName, Get_tenantId,
    Register_app, Catch, identity_key.
  repeat respects_step.
Qed.

(** ** The selection of the resource *)

(** The value [Select_configured] returns, read off the two hints. *)
Lemma Select_configured_value rs name group s :
  (Select_configured rs name group s).1 =
  Next (match configured_hint name ≫= λ n, head (Where_name_eq n rs) with
        | Some r => Some r
        | None =>
            match configured_hint group with
            | Some g =>
                match Where_resourceGroup_eq g rs with
                | [r] => Some r
                | _ => None
                end
            | None => None
            end
        end).
Proof.
  unfold Select_configured.
  destruct (configured_hint name) as [n|]; simpl;
    [destruct (Where_name_eq n rs) as [|r1 l1]|];
    (destruct (configured_hint group) as [g|];
      [destruct (Where_resourceGroup_eq g rs) as [|r2 [|r3 l2]]|]);
    by script_simpl.
Qed.

(** The selection by hints only prints warnings. *)
Lemma Select_configured_changes rs name group :
  respects (changes (λ _, False) (λ e, ∃ m, e = Warning m))
    (Select_configured rs name group).
Proof.
  unfold Select_configured.
  repeat first [ apply respects_emit; by eexists | respects_step ].
Qed.

(** [Select-Index] answers -1 or an index into [Items], and only prompts. *)
Lemma Select_Index_range w Items Title GetLabel s :
  ∃ i s', Select_Index w Items Title GetLabel s = (Next i, s') ∧
          (i = -1 ∨ 0 ≤ i < Z.of_nat (length Items)) ∧
          changes (λ _, False) is_prompt s s'.
Proof.
  unfold Select_Index.
  destruct (PromptForChoice (host w)) as [[m|selected]|]; script_simpl;
    try destruct ((0 <=? selected) && (selected <? Z.of_nat (length Items))) eqn:Hsel;
    script_simpl;
    try (eexists _, _; split; [done|]; split; [lia|];
         split_and!; [done..|]; eexists [_]; split; [done|];
         by repeat constructor).
  all: destruct (Read_Host (host w)) as [m'|selection]; script_simpl;
    try destruct (PS.TryParse selection) as [selectionNum|]; script_simpl;
    try destruct ((1 <=? selectionNum) && (selectionNum <=? Z.of_nat (length Items))) eqn:Hnum;
    script_simpl;
    eexists _, _; (split; [done|]); (split; [lia|]);
    (split_and!; [done..|]);
    (first [ eexists [_; _]; split; [by rewrite <- app_assoc|]
           | eexists [_]; split; [done|] ]);
    by repeat constructor.
Qed.

(** On a host that cannot ask, [Select-Index] answers -1. *)
Lemma Select_Index_non_interactive w Items Title GetLabel s :
  non_interactive (host w) →
  (Select_Index w Items Title GetLabel s).1 = Next (-1).
Proof.
  intros [Hprompt [m Hread]]. unfold Select_Index. rewrite Hread.
  destruct Hprompt as [-> | [m' ->]]; by script_simpl.
Qed.






(** With several resources, no configured hint that selects one, and a host
    that cannot ask, the selection yields the first resource; it touches
    neither the azd environment nor the files, and the two warning lines are
    the last things it prints. *)
Lemma Select_resource_fallback w first rest name group s :
  rest ≠ [] →
  (Select_configured (first :: rest) name group s).1 = Next None →
  non_interactive (host w) →
  ∃ s' evs,
    Select_resource w (first :: rest) name group s = (Next (Some first), s') ∧
    store s' = store s ∧ files s' = files s ∧
    trace s' = trace s ++ evs ++
      [Warning "[!]  Unable to prompt for selection (non-interactive host).";
       Warning "   Falling back to the first resource. To override, set:"].
Proof.
  intros Hrest Hnone Hhost. unfold Select_resource.
  destruct rest as [|r2 rest]; [done|]. clear Hrest.
  remember (first :: r2 :: rest) as rs eqn:Hrs_eq.
  pose proof (Select_configured_changes rs name group s) as (Hf1 & Hs1 & evs1 & Ht1 & _).
  unfold mbind at 1, Script_bind at 1.
  destruct (Select_configured rs name group s) as [r1 s1]. simpl in *. subst r1.
  pose proof (Select_Index_non_interactive w rs
                "Azure AI Foundry resource selection" resource_label s1 Hhost) as Hneg.
  destruct (Select_Index_range w rs "Azure AI Foundry resource selection"
              resource_label s1) as (i & s2 & Hi & _ & Hf2 & Hs2 & evs2 & Ht2 & _).
  unfold mbind, Script_bind. rewrite Hi in Hneg |- *. simpl in Hneg.
  injection Hneg as ->. script_simpl.
  eexists _, (evs1 ++ evs2). rewrite Hrs_eq at 1. split; [done|]. simpl.
  split_and!.
  - apply map_eq. intros k. rewrite Hs2, Hs1; auto.
  - congruence.
  - rewrite Ht2, Ht1. by rewrite <- !app_assoc.
Qed.

(** ** The chat endpoint *)

(** A request body without [message], or with [null] or the empty string
    for it, has a message that counts as false. *)
Lemma empty_message_is_false fields :
  Server.field "message" fields ∈ [Server.undefined; Server.null; Server.JStr ""] →
  Server.ToBoolean (Server.field "message" fields) = false.
Proof.
  intros Hin. repeat (apply elem_of_cons in Hin as [-> | Hin]; [done|]).
  by apply elem_of_nil in Hin.
Qed.

(** C10: a JSON body whose [message] is missing, [null] or empty (or any
    other value that counts as false) is answered with status 400 and the
    body [{error: 'Message is required'}], and no upstream call is made;
    with a message but without [OPENAI_API_KEY] in the environment the
    answer has status 500, again without an upstream call. *)
Theorem chat_validates_before_calling_upstream env fetch fields :
  let message := Server.field "message" fields in
  (Server.ToBoolean message = false →
   Server.post_api_chat env fetch (Server.JObj fields) =
     ({| Server.status := 400;
         Server.body := Server.JObj [("error", Server.JStr "Message is required")] |},
      [])) ∧
  (Server.ToBoolean message = true → env !! "OPENAI_API_KEY" = None →
   Server.status (Server.post_api_chat env fetch (Server.JObj fields)).1 = 500 ∧
   (Server.post_api_chat env fetch (Server.JObj fields)).2 = []).
Proof.
  unfold Server.post_api_chat. simpl. split.
  - by intros ->.
  - intros -> Henv. unfold Server.process_env. by rewrite Henv.
Qed.

Lemma chat_validates_before_calling_upstream_witness :
  Server.post_api_chat ∅ (λ _, Throws "unreachable")
    (Server.JObj [("message", Server.JStr "")]) =
    ({| Server.status := 400;
        Server.body := Server.JObj [("error", Server.JStr "Message is required")] |},
     []) ∧
  Server.status
    (Server.post_api_chat ∅ (λ _, Throws "unreachable")
       (Server.JObj [("message", Server.JStr "hello")])).1 = 500.
Proof.
  split.
  - apply (proj1 (chat_validates_before_calling_upstream ∅ (λ _, Throws "unreachable")
                    [("message", Server.JStr "")])).
    reflexivity.
  - apply (proj2 (chat_validates_before_calling_upstream ∅ (λ _, Throws "unreachable")
                    [("message", Server.JStr "hello")])); reflexivity.
Defined.

(** ** The run as a whole *)

Lemma exits_with_1_bind {A B} (m : Script A) (f : A → Script B) :
  exits_with_1 m → (∀ a, exits_with_1 (f a)) → exits_with_1 (m ≫= f).
Proof.
  intros Hm Hf s code s'. unfold mbind, Script_bind.
  destruct (m s) as [[a|c] s1] eqn:Hms.
  - apply Hf.
  - intros [= <- <-]. by eapply Hm.
Qed.

Lemma exits_with_1_exit {A} : exits_with_1 (@exit A 1).
Proof. by intros s code s' [= <- _]. Qed.

Lemma exits_with_1_ret {A} (a : A) : exits_with_1 (mret a).
Proof. by intros s code s'. Qed.

Lemma exits_with_1_emit e : exits_with_1 (emit e).
Proof. by intros s code s'. Qed.

Lemma exits_with_1_get_value key : exits_with_1 (get_value key).
Proof. by intros s code s'. Qed.

Lemma exits_with_1_azd_env_set w key value :
  exits_with_1 (azd_env_set w key value).
Proof. by intros s code s'. Qed.

Ltac exits_step :=
  first
    [ apply exits_with_1_bind; [|intros]
    | apply exits_with_1_exit
    | apply exits_with_1_ret
    | apply exits_with_1_emit
    | apply exits_with_1_get_value
    | apply exits_with_1_azd_env_set
    | case_match ].

Lemma Resolve_identity_exits_with_1 w : exits_with_1 (Resolve_identity w).
Proof.
  unfold Resolve_identity, Validate_prerequisites, Get_envName, Get_tenantId,
    Register_app, Catch.
  repeat exits_step.
Qed.


(** A run that stops in the identity phase. *)
Lemma run_identity_exit w s code s1 :
  Resolve_identity w s = (Exit code, s1) → run w s = (1, s1).
Proof.
  intros Hid. pose proof (Resolve_identity_exits_with_1 w s code s1 Hid) as ->.
  unfold run, preprovision, mbind, Script_bind. by rewrite Hid.
Qed.

(** A run that gets past the identity phase. *)
Lemma run_identity_next w s envName tenantId clientId s1 :
  Resolve_identity w s = (Next (envName, tenantId, clientId), s1) →
  run w s =
    match (Resolve_resource w ;; Write_env_files w envName clientId tenantId) s1 with
    | (Next _, s') => (0, s')
    | (Exit code, s') => (code, s')
    end.
Proof.
  intros Hid. unfold run, preprovision. unfold mbind at 1, Script_bind at 1.
  by rewrite Hid.
Qed.

(** The identity phase leaves the discovery keys as they were read. *)
Lemma get_value_after_identity w s k :
  ¬ identity_key k →
  azd_env_get_value (store (Resolve_identity w s).2) k =
  azd_env_get_value (store s) k.
Proof.
  intros Hk. destruct (Resolve_identity_changes w s) as (_ & Hstore & _).
  unfold azd_env_get_value. by rewrite Hstore.
Qed.

(** Closes a goal [¬ K k] for a literal key [k] and a literal list of keys
    behind [K]. *)
Ltac not_key :=
  let H := fresh in
  intros H; repeat (apply elem_of_cons in H as [H|H]; [discriminate H|]);
  by apply elem_of_nil in H.

(** Closes a goal from a hypothesis [H : k ∈ keys] for a literal key [k]
    that is not in the literal list. *)
Ltac not_key_in H :=
  repeat (apply elem_of_cons in H as [H|H]; [discriminate H|]);
  by apply elem_of_nil in H.

Lemma preconfigured_after_identity w s :
  preconfigured (store (Resolve_identity w s).2) = preconfigured (store s).
Proof.
  unfold preconfigured. rewrite !get_value_after_identity; [done|not_key..].
Qed.


(** What is read back as non-blank: a value that is stored, is not white
    space only and does not hold the text ERROR. *)
Lemma get_value_not_blank env k :
  PS.IsNullOrWhiteSpace (azd_env_get_value env k) = false ↔
  ∃ v, env !! k = Some v ∧ PS.matches v "ERROR" = false ∧ PS.all_white v = false.
Proof.
  unfold azd_env_get_value. destruct (env !! k) as [v|]; simpl.
  - destruct (PS.matches v "ERROR") eqn:Herr; simpl.
    + split; [done|]. intros (v' & [= <-] & ? & _). congruence.
    + split; [by exists v|]. by intros (v' & [= <-] & _ & ?).
  - split; [done|]. by intros (v & ? & _).
Qed.

Lemma preconfigured_spec env :
  preconfigured env = true ↔
  ∀ k, k ∈ ["AI_AGENT_ENDPOINT"; "AI_FOUNDRY_RESOURCE_GROUP";
            "AI_FOUNDRY_RESOURCE_NAME"] →
    ∃ v, env !! k = Some v ∧ PS.matches v "ERROR" = false ∧ PS.all_white v = false.
Proof.
  unfold preconfigured. rewrite !andb_true_iff, !negb_true_iff.
  rewrite !get_value_not_blank. split.
  - intros [[He Hg] Hn] k Hk.
    repeat (apply elem_of_cons in Hk as [-> | Hk]; [done|]).
    by apply elem_of_nil in Hk.
  - intros H. split_and!; apply H; is_key.
Qed.

(** The branch [Resolve_resource] takes. *)
Lemma Resolve_resource_branch w s :
  Resolve_resource w s =
  if preconfigured (store s)
  then Use_preconfigured w
         (azd_env_get_value (store s) "AI_AGENT_ENDPOINT")
         (azd_env_get_value (store s) "AI_FOUNDRY_RESOURCE_GROUP")
         (azd_env_get_value (store s) "AI_AGENT_ID") s
  else Discover w
         (azd_env_get_value (store s) "AI_FOUNDRY_RESOURCE_NAME")
         (azd_env_get_value (store s) "AI_FOUNDRY_RESOURCE_GROUP") s.
Proof.
  unfold Resolve_resource, preconfigured. script_simpl.
  by repeat (case_match; simpl in *; try discriminate).
Qed.



(** ** The phases after the identity *)



(** The file emission never stops, leaves the environment alone and writes
    the three files, the azd file merged with its former content. *)
Lemma Write_env_files_run w envName clientId tenantId s :
  let env := azd_env_get_value (store s) in
  let existingVars :=
    match files s !! envFilePath_of envName with
    | Some content => load_existingVars (Get_Content content)
    | None => ∅
    end in
  let envContent :=
    envContent_of w
      (update_existingVars clientId tenantId
         (env "AI_AGENT_ENDPOINT") (env "AI_AGENT_ID")
         (env "AI_FOUNDRY_RESOURCE_GROUP") (env "AI_FOUNDRY_RESOURCE_NAME")
         existingVars) +:+ PS.nl in
  let frontend := frontendEnvContent clientId tenantId +:+ PS.nl in
  let backend :=
    backendEnvContent clientId tenantId
      (env "AI_AGENT_ENDPOINT") (env "AI_AGENT_ID") +:+ PS.nl in
  Write_env_files w envName clientId tenantId s =
  (Next tt,
   {| store := store s;
      files := <[backendEnvPath := backend]>
                 (<[frontendEnvPath := frontend]>
                    (<[envFilePath_of envName := envContent]> (files s)));
      trace := trace s ++ [Out_File (envFilePath_of envName) envContent;
                           Out_File frontendEnvPath frontend;
                           Out_File backendEnvPath backend] |}).
Proof.
  intros. unfold Write_env_files.
  unfold mbind, Script_bind, get_value, read_file, write_file.
  cbn beta iota zeta delta [store files trace fst snd].
  by rewrite <- !app_assoc.
Qed.

(** The pre-configured path touches nothing but the agent id, and lists
    nothing but agents. *)
Lemma Use_preconfigured_changes w endpoint group agent :
  respects (changes (λ k, k ∈ ["AI_AGENT_ID"])
              (λ e, ¬ is_Out_File e ∧ ¬ is_listing e ∧ ¬ is_prompt e))
    (Use_preconfigured w endpoint group agent).
Proof.
  unfold Use_preconfigured, Validate_permissions.
  repeat first [ respects_step
               | apply respects_azd_env_set; [left | simpl; tauto] ].
Qed.

(** The selection touches neither the environment nor the files; it only
    warns and prompts. *)
Lemma Select_resource_changes w rs name group :
  respects (changes (λ _, False) (λ e, (∃ m, e = Warning m) ∨ is_prompt e))
    (Select_resource w rs name group).
Proof.
  unfold Select_resource.
  destruct rs as [|r1 [|r2 rest]]; [|apply respects_ret|];
    (apply respects_bind;
     [ intros s; eapply changes_mono;
         [| |apply Select_configured_changes]; simpl; tauto
     | intros [r|]; [apply respects_ret|];
       apply respects_bind;
       [ intros s;
         destruct (Select_Index_range w
                     ltac:(first [exact (r1 :: r2 :: rest) | exact (@nil Resource)])
                     "Azure AI Foundry resource selection"
                     resource_label s) as (i & s' & -> & _ & Hch);
         eapply changes_mono; [| |exact Hch]; simpl; tauto
       | intros i; case_match;
         repeat first [ apply respects_emit; left; by eexists | respects_step ] ] ]).
Qed.

Lemma Resolve_agent_changes w aiEndpoint :
  respects (changes (λ k, k ∈ ["AI_AGENT_ID"]) (λ e, ¬ is_Out_File e))
    (Resolve_agent w aiEndpoint).
Proof.
  unfold Resolve_agent.
  repeat first [ respects_step
               | apply respects_azd_env_set; [left | simpl; tauto] ].
Qed.

Lemma Discover_changes w name group :
  respects (changes discovery_key (λ e, ¬ is_Out_File e)) (Discover w name group).
Proof.
  unfold Discover, Configure_project, Validate_permissions, Catch.
  apply respects_bind; [apply respects_emit; simpl; tauto|intros _].
  destruct (az_cognitiveservices_account_list w) as [|r0 rs0] eqn:Hlist;
    [by repeat respects_step|].
  apply respects_bind.
  { intros s. eapply changes_mono; [| |apply Select_resource_changes].
    - done.
    - intros e [[m ->]|He]; [simpl; tauto|]. destruct e; simpl in *; tauto. }
  intros [r|]; [|by repeat respects_step].
  apply respects_bind; [apply respects_emit; simpl; tauto|intros _].
  destruct (az_rest_projects w (res_id r)) as [|p ps]; [by repeat respects_step|].
  repeat (apply respects_bind;
          [apply respects_azd_env_set; [is_key | simpl; tauto]
          |intros _]).
  apply respects_bind; [by repeat respects_step|intros _].
  intros s. eapply changes_mono; [| |apply Resolve_agent_changes]; [|done].
  intros k Hk. apply list_elem_of_singleton in Hk as ->. is_key.
Qed.

Lemma Resolve_agent_exits_with_1 w aiEndpoint :
  exits_with_1 (Resolve_agent w aiEndpoint).
Proof. unfold Resolve_agent. repeat exits_step. Qed.

Lemma Select_resource_never_exits w rs name group s code s' :
  Select_resource w rs name group s ≠ (Exit code, s').
Proof.
  unfold Select_resource. destruct rs as [|r1 [|r2 rest]]; [|done|];
    (unfold mbind at 1, Script_bind at 1;
     pose proof (Select_configured_value
                   ltac:(first [exact (r1 :: r2 :: rest) | exact (@nil Resource)])
                   name group s) as Hval;
     destruct (Select_configured _ name group s) as [[[r|]|c] s1];
     [done| |done];
     unfold mbind, Script_bind;
     destruct (Select_Index_range w
                 ltac:(first [exact (r1 :: r2 :: rest) | exact (@nil Resource)])
                 "Azure AI Foundry resource selection"
                 resource_label s1) as (i & s2 & -> & _);
     by destruct (i <? 0)).
Qed.

Lemma Discover_exits_with_1 w name group : exits_with_1 (Discover w name group).
Proof.
  unfold Discover, Configure_project, Validate_permissions, Catch.
  apply exits_with_1_bind; [apply exits_with_1_emit|intros _].
  destruct (az_cognitiveservices_account_list w) as [|r0 rs0];
    [by repeat exits_step|].
  apply exits_with_1_bind.
  { intros s code s' H. by apply Select_resource_never_exits in H. }
  intros [r|]; [|by repeat exits_step].
  apply exits_with_1_bind; [apply exits_with_1_emit|intros _].
  destruct (az_rest_projects w (res_id r)) as [|p ps]; [by repeat exits_step|].
  repeat (apply exits_with_1_bind; [apply exits_with_1_azd_env_set|intros _]).
  apply exits_with_1_bind; [by repeat exits_step|intros _].
  apply Resolve_agent_exits_with_1.
Qed.


(** The check of the permissions only ever warns. *)
Lemma Validate_permissions_changes w resourceGroup s :
  ∃ s' evs, Validate_permissions w resourceGroup s = (Next tt, s') ∧
            store s' = store s ∧ files s' = files s ∧
            trace s' = trace s ++ evs ∧
            Forall (λ e, ¬ is_listing e ∧ ¬ is_prompt e ∧
                         ¬ is_agent_listing e ∧ ¬ is_Out_File e) evs.
Proof.
  unfold Validate_permissions.
  destruct (az_role_assignment_list w resourceGroup).
  - exists s, []. by rewrite app_nil_r.
  - eexists _, [_]. split_and!; [done..|]. repeat constructor; simpl; tauto.
Qed.

Lemma Validate_permissions_run w resourceGroup s :
  ∃ s', Validate_permissions w resourceGroup s = (Next tt, s') ∧
        store s' = store s ∧ files s' = files s.
Proof.
  destruct (Validate_permissions_changes w resourceGroup s)
    as (s' & evs & ? & ? & ? & _).
  by exists s'.
Qed.

(** The configuration of the project starts with the listing of the
    projects of the selected resource. *)
Lemma Configure_project_trace w r s :
  ∃ evs, trace (Configure_project w r s).2
         = trace s ++ [Call_rest_projects (res_id r)] ++ evs.
Proof.
  unfold Configure_project. unfold mbind at 1, Script_bind at 1, emit at 1.
  destruct (az_rest_projects w (res_id r)) as [|p ps].
  - eexists [_]. script_simpl. by rewrite <- !app_assoc.
  - unfold mbind at 1 2 3 4, Script_bind at 1 2 3 4, azd_env_set.
    cbn beta iota zeta delta [store files trace fst snd].
    match goal with
    | |- context [ Validate_permissions w ?g ?s0 ] =>
        destruct (Validate_permissions_changes w g s0)
          as (sp & evp & Hperm & _ & _ & Htp & _)
    end.
    rewrite Hperm.
    match goal with
    | |- context [ Resolve_agent w ?e sp ] =>
        destruct (Resolve_agent_changes w e sp) as (_ & _ & evs & Ht & _)
    end.
    rewrite Ht, Htp. cbn [trace]. eexists. by rewrite <- !app_assoc.
Qed.

(** With one resource listed, the discovery goes straight from the listing
    of the resources to the listing of the projects of that resource. *)
Lemma Discover_single w only name group s :
  az_cognitiveservices_account_list w = [only] →
  ∃ evs, trace (Discover w name group s).2
         = trace s ++ [Call_account_list; Call_rest_projects (res_id only)] ++ evs.
Proof.
  intros Hlist. unfold Discover. rewrite Hlist.
  unfold mbind at 1 2, Script_bind at 1 2, emit at 1, Select_resource.
  cbn beta iota zeta delta [mret Script_ret].
  destruct (Configure_project_trace w only
              {| store := store s; files := files s;
                 trace := trace s ++ [Call_account_list] |}) as [evs ->].
  exists evs. cbn [trace]. by rewrite <- !app_assoc.
Qed.

(** With several resources listed, no configured hint that selects one, and
    a host that cannot ask, the discovery warns and goes on to the listing
    of the projects of the first resource. *)
Lemma Discover_fallback w first rest name group s :
  az_cognitiveservices_account_list w = first :: rest →
  rest ≠ [] →
  (Select_configured (first :: rest) name group s).1 = Next None →
  non_interactive (host w) →
  ∃ evs evs',
    trace (Discover w name group s).2
    = trace s ++ evs ++
        [Warning "[!]  Unable to prompt for selection (non-interactive host).";
         Warning "   Falling back to the first resource. To override, set:";
         Call_rest_projects (res_id first)] ++ evs'.
Proof.
  intros Hlist Hrest Hnone Hhost. unfold Discover. rewrite Hlist.
  unfold mbind at 1 2, Script_bind at 1 2, emit at 1.
  set (s0 := {| store := store s; files := files s;
                trace := trace s ++ [Call_account_list] |}).
  destruct (Select_resource_fallback w first rest name group s0)
    as (s1 & evs & -> & _ & _ & Ht); [done| |done|].
  { rewrite Select_configured_value. by rewrite Select_configured_value in Hnone. }
  destruct (Configure_project_trace w first s1) as [evs' ->].
  exists (Call_account_list :: evs), evs'.
  rewrite Ht. subst s0. cbn [trace]. by rewrite <- !app_assoc.
Qed.

(** C3: a list of exactly one resource yields that resource, whatever the
    configured name and group are; nothing is asked, nothing is printed and
    the script does not stop there: after the listing of the resources comes
    the listing of the projects of that resource. *)
Theorem single_candidate_is_selected w only name group s :
  Select_resource w [only] name group s = (Next (Some only), s) ∧
  (az_cognitiveservices_account_list w = [only] →
   ∃ evs, trace (Discover w name group s).2
          = trace s ++ [Call_account_list; Call_rest_projects (res_id only)] ++ evs).
Proof. split; [reflexivity|apply Discover_single]. Qed.

Lemma single_candidate_is_selected_witness :
  ∃ evs, trace (Discover world_with_Y_only (Some "X") (Some "rg-x") empty_state).2
         = trace empty_state
           ++ [Call_account_list; Call_rest_projects (res_id resource_Y)] ++ evs.
Proof.
  apply (proj2 (single_candidate_is_selected world_with_Y_only resource_Y
                  (Some "X") (Some "rg-x") empty_state)).
  reflexivity.
Defined.

(** C4: with several resources, no configured hint that selects one, and a
    host that cannot ask, the first resource of the listing is selected and
    the warning that the choice was not made by hand is printed; the script
    neither waits nor stops there: the states are computed outright, the
    selection returns, and the discovery goes on to the projects of the
    first resource. *)
Theorem fallback_to_first_resource w first rest name group s :
  rest ≠ [] →
  (Select_configured (first :: rest) name group s).1 = Next None →
  non_interactive (host w) →
  (∃ s' evs,
     Select_resource w (first :: rest) name group s = (Next (Some first), s') ∧
     store s' = store s ∧ files s' = files s ∧
     trace s' = trace s ++ evs ++
       [Warning "[!]  Unable to prompt for selection (non-interactive host).";
        Warning "   Falling back to the first resource. To override, set:"]) ∧
  (az_cognitiveservices_account_list w = first :: rest →
   ∃ evs evs',
     trace (Discover w name group s).2
     = trace s ++ evs ++
         [Warning "[!]  Unable to prompt for selection (non-interactive host).";
          Warning "   Falling back to the first resource. To override, set:";
          Call_rest_projects (res_id first)] ++ evs').
Proof.
  intros Hrest Hnone Hhost. split.
  - by apply Select_resource_fallback.
  - intros Hlist. by apply (Discover_fallback w first rest).
Qed.

Lemma fallback_to_first_resource_witness :
  ∃ evs evs',
    trace (Discover sample_world None None empty_state).2
    = trace empty_state ++ evs ++
        [Warning "[!]  Unable to prompt for selection (non-interactive host).";
         Warning "   Falling back to the first resource. To override, set:";
         Call_rest_projects (res_id resource_X)] ++ evs'.
Proof.
  apply (proj2 (fallback_to_first_resource sample_world resource_X [resource_Y]
                  None None empty_state
                  ltac:(discriminate) eq_refl
                  (conj (or_introl eq_refl) (ex_intro _ "no input" eq_refl)))).
  reflexivity.
Defined.

Lemma paths_written_app evs1 evs2 :
  paths_written (evs1 ++ evs2) = paths_written evs1 ++ paths_written evs2.
Proof. apply omap_app. Qed.

Lemma paths_written_none evs :
  Forall (λ e, ¬ is_Out_File e) evs → paths_written evs = [].
Proof.
  induction 1 as [|e evs He _ IH]; [done|].
  unfold paths_written in *. by destruct e; simpl in *.
Qed.





(** ** Re-running on a pre-configured resource *)

(** A run on a pre-configured resource that gets past the identity phase
    ends with exit code 0; its environment is that of the identity phase
    with, at most, the agent id set. *)
Lemma preconfigured_run w s envName tenantId clientId s1 :
  preconfigured (store s) = true →
  Resolve_identity w s = (Next (envName, tenantId, clientId), s1) →
  ∃ s2 evs,
    run w s = (0, s2) ∧
    store s2 = store_after_preconfigured w (store s1) ∧
    trace s2 = trace s1 ++ evs ∧
    Forall (λ e, ¬ is_listing e ∧ ¬ is_prompt e ∧
                 (agent_configured (store s1) = true → ¬ is_agent_listing e)) evs.
Proof.
  intros Hpre Hrun.
  pose proof (preconfigured_after_identity w s) as Hpre1.
  rewrite Hrun in Hpre1. cbn [snd] in Hpre1.
  rewrite (run_identity_next _ _ _ _ _ _ Hrun).
  unfold mbind at 1, Script_bind at 1.
  rewrite Resolve_resource_branch, Hpre1, Hpre.
  unfold Use_preconfigured, store_after_preconfigured, agent_configured.
  destruct (Validate_permissions_changes w
              (default EmptyString
                 (azd_env_get_value (store s1) "AI_FOUNDRY_RESOURCE_GROUP")) s1)
    as (sp & evp & Hperm & Hsp & Hfp & Htp & Hevp).
  unfold mbind at 1, Script_bind at 1. rewrite Hperm.
  destruct (PS.IsNullOrWhiteSpace (azd_env_get_value (store s1) "AI_AGENT_ID"))
    eqn:Hagent; cbn [negb].
  - unfold mbind at 1, Script_bind at 1, emit at 1.
    destruct (Get_AIFoundryAgents w _) as [m|[|agent agents]];
      cbn beta iota zeta delta [mret Script_ret azd_env_set];
      rewrite Write_env_files_run; cbn [store files trace];
      eexists _, _; (split; [done|]); rewrite ?Hsp, Htp, <- !app_assoc;
      (split; [done|]); (split; [done|]);
      (apply Forall_app; split; [eapply Forall_impl; [exact Hevp|]; intros e; simpl; tauto|]);
      repeat constructor; simpl; try tauto; intros [=].
  - cbn beta iota zeta delta [mret Script_ret].
    rewrite Write_env_files_run; cbn [store files trace].
    eexists _, _. split; [done|]. rewrite Hsp, Htp, <- !app_assoc.
    split; [done|]. split; [done|].
    apply Forall_app; split; [eapply Forall_impl; [exact Hevp|]; intros e; simpl; tauto|].
    repeat constructor; simpl; tauto.
Qed.

Lemma store_after_set_lookup_ne w k v env k' :
  k ≠ k' → store_after_set w k v env !! k' = env !! k'.
Proof.
  intros Hne. unfold store_after_set.
  destruct (azd_env_set_succeeds w k); [|done]. by apply lookup_insert_ne.
Qed.


(** What is read back for a key depends on the value stored for it only. *)
Lemma azd_env_get_value_ext env env' k :
  env !! k = env' !! k → azd_env_get_value env k = azd_env_get_value env' k.
Proof. unfold azd_env_get_value. by intros ->. Qed.









(** ** The endpoint *)

Lemma append_cons x (a b : string) : String x a +:+ b = String x (a +:+ b).
Proof. reflexivity. Qed.

Lemma append_assoc (a b c : string) : (a +:+ b) +:+ c = a +:+ b +:+ c.
Proof. induction a as [|x a IH]; [done|]. rewrite !append_cons. by f_equal. Qed.

Lemma has_char_append c a b :
  has_char c (a +:+ b) = has_char c a || has_char c b.
Proof.
  induction a as [|x a IH]; [done|]. rewrite append_cons. simpl.
  rewrite <- orb_assoc. by f_equal.
Qed.

Lemma has_char_false c s a b : has_char c s = false → s ≠ a +:+ String c b.
Proof.
  intros Hs ->. rewrite has_char_append in Hs. simpl in Hs.
  rewrite Ascii.eqb_refl in Hs. simpl in Hs. by rewrite orb_true_r in Hs.
Qed.

Lemma Split_not_nil sep s : PS.Split sep s ≠ [].
Proof.
  destruct s as [|c s]; simpl; [done|].
  destruct (Ascii.eqb c sep); [done|]. by destruct (PS.Split sep s).
Qed.

(** The segments hold no separator, and joined by the separator they give
    the string back. *)
Lemma Split_segments sep s :
  Forall (λ seg, has_char sep seg = false) (PS.Split sep s) ∧
  String.concat (String sep EmptyString) (PS.Split sep s) = s.
Proof.
  induction s as [|c s [IHno IHjoin]]; simpl.
  { split; [by repeat constructor|done]. }
  pose proof (Split_not_nil sep s) as Hne.
  destruct (Ascii.eqb c sep) eqn:Hc.
  - apply Ascii.eqb_eq in Hc as ->. split; [by constructor|].
    destruct (PS.Split sep s) as [|seg segs]; [done|].
    by rewrite <- IHjoin.
  - destruct (PS.Split sep s) as [|seg segs]; [done|].
    apply Forall_cons in IHno as [Hseg Hsegs]. split.
    + constructor; [|done]. simpl. by rewrite Hc, Hseg.
    + rewrite <- IHjoin. by destruct segs.
Qed.

Lemma concat_snoc sep (init : list string) (x : string) :
  String.concat sep (init ++ [x]) =
  match init with
  | [] => x
  | _ => String.concat sep init +:+ sep +:+ x
  end.
Proof.
  induction init as [|y init IH]; [done|].
  destruct init as [|z init]; [done|].
  change (String.concat sep ((y :: z :: init) ++ [x]))
    with (y +:+ sep +:+ String.concat sep ((z :: init) ++ [x])).
  rewrite IH.
  change (String.concat sep (y :: z :: init))
    with (y +:+ sep +:+ String.concat sep (z :: init)).
  by rewrite !append_assoc.
Qed.

(** The last segment holds no separator, and the string is that segment
    alone or ends with the separator and that segment. *)
Lemma last_segment sep s :
  let seg := PS.last_item (PS.Split sep s) in
  (∀ a b, seg ≠ a +:+ String sep b) ∧
  (s = seg ∨ ∃ prefix, s = prefix +:+ String sep seg).
Proof.
  intros seg. subst seg.
  destruct (Split_segments sep s) as [Hno Hjoin].
  destruct (exists_last (Split_not_nil sep s)) as (init & x & Hsplit).
  rewrite Hsplit in *. unfold PS.last_item. rewrite last_last.
  rewrite Forall_app, Forall_singleton in Hno. destruct Hno as [_ Hx].
  split; [intros a b; by apply has_char_false|].
  rewrite concat_snoc in Hjoin.
  destruct init as [|y init]; [by left|]. right.
  eexists. by rewrite <- Hjoin.
Qed.

(** What [Select-Index] answers does not depend on the state. *)
Lemma Select_Index_oblivious w Items Title GetLabel s s' :
  (Select_Index w Items Title GetLabel s).1 =
  (Select_Index w Items Title GetLabel s').1.
Proof.
  unfold Select_Index.
  destruct (PromptForChoice (host w)) as [[m|selected]|]; script_simpl;
    try destruct ((0 <=? selected) && (selected <? Z.of_nat (length Items)));
    script_simpl; try done;
    destruct (Read_Host (host w)) as [m'|selection]; script_simpl; try done;
    destruct (PS.TryParse selection) as [selectionNum|]; script_simpl; try done;
    by destruct ((1 <=? selectionNum) && (selectionNum <=? Z.of_nat (length Items))).
Qed.

Lemma bind_oblivious {A B} (m : Script A) (f : A → Script B) s s' :
  (m s).1 = (m s').1 →
  (∀ a t t', (f a t).1 = (f a t').1) →
  ((m ≫= f) s).1 = ((m ≫= f) s').1.
Proof.
  intros Hm Hf. unfold mbind, Script_bind.
  destruct (m s) as [[a|code] t], (m s') as [[a'|code'] t'];
    cbn [fst] in Hm; simplify_eq; [apply Hf|done].
Qed.

(** Nor does the resource selected. *)
Lemma Select_resource_oblivious w rs name group s s' :
  (Select_resource w rs name group s).1 = (Select_resource w rs name group s').1.
Proof.
  unfold Select_resource. destruct rs as [|r1 [|r2 rest]]; [|reflexivity|];
    (apply bind_oblivious;
     [ by rewrite !Select_configured_value
     | intros [r|] t t'; [reflexivity|];
       apply bind_oblivious; [apply Select_Index_oblivious|];
       intros i t1 t1'; destruct (i <? 0); reflexivity ]).
Qed.

(** C9: once a resource and, with it, the first of its projects are
    selected, the value handed to [azd env set AI_AGENT_ENDPOINT] is
    [https://{resource name}.services.ai.azure.com/api/projects/{project
    name}], and it is what the azd environment holds for the key when the
    write goes through; the project name is the text after the last slash of
    the project's name: it holds no slash, and the project's name is either
    that text or ends with a slash and that text. *)
Theorem endpoint_is_derived_from_names w name group s r p ps :
  az_cognitiveservices_account_list w ≠ [] →
  (Select_resource w (az_cognitiveservices_account_list w) name group s).1
    = Next (Some r) →
  az_rest_projects w (res_id r) = p :: ps →
  let projectName := PS.last_item (PS.Split "/" (proj_name p)) in
  let url := "https://" +:+ res_name r +:+ ".services.ai.azure.com/api/projects/"
               +:+ projectName in
  Azd_env_set "AI_AGENT_ENDPOINT" url (azd_env_set_succeeds w "AI_AGENT_ENDPOINT")
    ∈ trace (Discover w name group s).2 ∧
  (azd_env_set_succeeds w "AI_AGENT_ENDPOINT" = true →
   store (Discover w name group s).2 !! "AI_AGENT_ENDPOINT" = Some url) ∧
  (∀ a b, projectName ≠ a +:+ "/" +:+ b) ∧
  (proj_name p = projectName ∨
   ∃ prefix, proj_name p = prefix +:+ "/" +:+ projectName).
Proof.
  intros Hne Hsel Hprojects projectName url.
  destruct (last_segment "/" (proj_name p)) as [Hslash Hlast].
  split_and!; [| |exact Hslash|exact Hlast].
  all: unfold Discover, Configure_project.
  all: unfold mbind at 1, Script_bind at 1; unfold emit at 1.
  all: destruct (az_cognitiveservices_account_list w) as [|r0 rs0] eqn:Hrs; [done|].
  all: unfold mbind at 1, Script_bind at 1.
  all: match goal with
       | |- context [ Select_resource _ ?rs ?n ?g ?s0 ] =>
           rewrite (Select_resource_oblivious w rs n g s s0) in Hsel;
           destruct (Select_resource w rs n g s0) as [v s1]
       end.
  all: cbn [fst] in Hsel; subst v.
  all: unfold mbind at 1, Script_bind at 1; unfold emit at 1.
  all: rewrite Hprojects.
  all: unfold mbind at 1 2 3 4, Script_bind at 1 2 3 4, azd_env_set.
  all: destruct (Validate_permissions_changes w (res_resourceGroup r)
                   {| store := store_after_set w "AI_AGENT_ENDPOINT"
                                 (aiEndpoint_of r (projectName_of p))
                                 (store_after_set w "AI_FOUNDRY_RESOURCE_NAME" (res_name r)
                                    (store_after_set w "AI_FOUNDRY_RESOURCE_GROUP"
                                       (res_resourceGroup r) (store s1)));
                      files := files s1;
                      trace := ((((trace s1 ++ [Call_rest_projects (res_id r)])
                                  ++ [Azd_env_set "AI_FOUNDRY_RESOURCE_GROUP"
                                        (res_resourceGroup r)
                                        (azd_env_set_succeeds w "AI_FOUNDRY_RESOURCE_GROUP")])
                                 ++ [Azd_env_set "AI_FOUNDRY_RESOURCE_NAME" (res_name r)
                                       (azd_env_set_succeeds w "AI_FOUNDRY_RESOURCE_NAME")])
                                ++ [Azd_env_set "AI_AGENT_ENDPOINT"
                                      (aiEndpoint_of r (projectName_of p))
                                      (azd_env_set_succeeds w "AI_AGENT_ENDPOINT")]) |})
         as (sp & evp & Hperm & Hsp & _ & Htp & _).
  all: cbn beta iota zeta delta [store files trace fst snd] in *.
  all: rewrite Hperm.
  all: pose proof (Resolve_agent_changes w (aiEndpoint_of r (projectName_of p)) sp)
         as (_ & Hstore & evs & Ht & _).
  - rewrite Ht, Htp. cbn [trace].
    apply elem_of_app. left. apply elem_of_app. left.
    apply elem_of_app. right. left.
  - intros Hok. rewrite Hstore by not_key. rewrite Hsp.
    unfold store_after_set at 1. rewrite Hok. apply lookup_insert_eq.
Qed.

Lemma endpoint_is_derived_from_names_witness :
  store (Discover sample_world None None empty_state).2 !! "AI_AGENT_ENDPOINT"
  = Some "https://X.services.ai.azure.com/api/projects/proj".
Proof.
  apply (endpoint_is_derived_from_names sample_world None None empty_state
           resource_X {| proj_name := "X/proj" |} []);
    first [discriminate | reflexivity].
Defined.

(** ** The files *)

Lemma hashtable_set_lookup key value table K :
  hashtable_set key value table !! K =
  if decide (PS.ToUpper key = K)
  then Some (match table !! K with
             | Some (key0, _) => key0
             | None => key
             end, value)
  else table !! K.
Proof.
  unfold hashtable_set. destruct (decide (PS.ToUpper key = K)) as [<-|Hne].
  - destruct (table !! PS.ToUpper key) as [[key0 v0]|]; by rewrite lookup_insert_eq.
  - destruct (table !! PS.ToUpper key) as [[key0 v0]|]; by rewrite lookup_insert_ne.
Qed.








(** The hook's own variables leave the other keys of the table alone. *)
Lemma update_existingVars_other clientId tenantId endpoint agent group name table K :
  K ∉ hook_keys →
  update_existingVars clientId tenantId endpoint agent group name table !! K
  = table !! K.
Proof.
  intros HK. unfold update_existingVars, set_unless_blank.
  repeat (match goal with
          | |- context [ if ?b then _ else _ ] => destruct b
          end);
    rewrite ?hashtable_set_lookup;
    repeat (rewrite decide_False;
            [|intros <-; apply HK; vm_compute; is_key]);
    done.
Qed.



Lemma append_nil_r (a : string) : a +:+ "" = a.
Proof. induction a as [|x a IH]; [done|]. rewrite append_cons. by f_equal. Qed.



Lemma envFilePath_not_frontend envName : envFilePath_of envName ≠ frontendEnvPath.
Proof. discriminate. Qed.

Lemma envFilePath_not_backend envName : envFilePath_of envName ≠ backendEnvPath.
Proof. discriminate. Qed.



(** The example of the specification: [FOO=bar] in the azd file and the
    client id [abc] give a file with both. *)
Example merge_keeps_FOO_and_sets_client_id :
  files (Write_env_files sample_world "dev" "abc" "tenant-1" state_with_files).2
    !! envFilePath_of "dev"
  = Some (String.concat PS.nl
            ["# Auto-generated - Do not commit";
             "# Local development environment variables";
             "";
             "ENTRA_SPA_CLIENT_ID=abc";
             "ENTRA_TENANT_ID=tenant-1";
             "FOO=bar";
             "";
             ""]).
Proof. vm_compute. reflexivity. Qed.

(** An assignment to a key named [Keys] in the azd file makes the loop of
    line 451 go through the value of that entry instead of the keys of the
    table: the file written has a single line after its heading, and
    neither the other assignments nor the values of the hook. *)
Example Keys_entry_hides_the_keys :
  let s :=
    {| store := ∅;
       files := {[ envFilePath_of "dev" :=
                     "FOO=bar" +:+ PS.nl +:+ "Keys=zzz" +:+ PS.nl ]};
       trace := [] |} in
  files (Write_env_files sample_world "dev" "abc" "tenant-1" s).2
    !! envFilePath_of "dev"
  = Some (String.concat PS.nl
            ["# Auto-generated - Do not commit";
             "# Local development environment variables";
             "";
             "zzz=";
             "";
             ""]).
Proof. vm_compute. reflexivity. Qed.


(** ** Writes to the azd environment that fail *)

Lemma agree_weaken keys keys' s s' :
  (∀ k, k ∈ keys' → k ∈ keys) → agree keys s s' → agree keys' s s'.
Proof. intros Hsub [Hstore Hpaths]. split; [|done]. intros k Hk. auto. Qed.

Lemma agree_nil keys s s' : agree keys s s' → agree [] s s'.
Proof. apply agree_weaken. intros k Hk. by apply elem_of_nil in Hk. Qed.

Lemma agree_emit keys s s' e :
  agree keys s s' → agree keys (emit e s).2 (emit e s').2.
Proof.
  intros [Hstore Hpaths]. split; [done|]. simpl.
  by rewrite !paths_written_app, Hpaths.
Qed.

Lemma related_bind {A B} pre mid post (m m' : Script A) (f f' : A → Script B) :
  related pre mid m m' → (∀ a, related mid post (f a) (f' a)) →
  related pre post (m ≫= f) (m' ≫= f').
Proof.
  intros Hm Hf s s' Hagree. unfold mbind, Script_bind.
  destruct (Hm s s' Hagree) as [Hres Hmid].
  destruct (m s) as [[a|code] s1], (m' s') as [[a'|code'] s1'];
    cbn [fst snd keys_after] in *; simplify_eq; [by apply Hf|done].
Qed.

(** Agreement on fewer keys is enough to start from more. *)
Lemma related_forget {A} pre pre' post (m m' : Script A) :
  (∀ k, k ∈ pre' → k ∈ pre) → related pre' post m m' → related pre post m m'.
Proof. intros Hsub Hm s s' Hagree. apply Hm. by eapply agree_weaken. Qed.

Lemma related_ret {A} keys (a : A) : related keys keys (mret a) (mret a).
Proof. by intros s s' Hagree. Qed.

Lemma related_exit {A} keys post code :
  related keys post (@exit A code) (exit code).
Proof. intros s s' Hagree. split; [done|]. by eapply agree_nil. Qed.

Lemma related_emit keys e : related keys keys (emit e) (emit e).
Proof. intros s s' Hagree. split; [done|]. by apply agree_emit. Qed.

Lemma related_get_value keys key :
  key ∈ keys → related keys keys (get_value key) (get_value key).
Proof.
  intros Hkey s s' Hagree. split; [|done]. simpl.
  apply f_equal, azd_env_get_value_ext. by apply Hagree.
Qed.

(** A write, whether it goes through or not in either world, keeps the
    agreement on the other keys. *)
Lemma related_azd_env_set keys w w' key value :
  key ∉ keys → related keys keys (azd_env_set w key value) (azd_env_set w' key value).
Proof.
  intros Hkey s s' [Hstore Hpaths]. split; [done|]. split.
  - intros k Hk. simpl.
    rewrite !store_after_set_lookup_ne by (intros ->; done). by apply Hstore.
  - simpl. by rewrite !paths_written_app, Hpaths.
Qed.

(** A script that does not look at the state, leaves the azd environment
    alone and writes no file is related to itself. *)
Lemma related_oblivious {A} keys (m : Script A) :
  (∀ s s', (m s).1 = (m s').1) →
  respects (changes (λ _, False) (λ e, ¬ is_Out_File e)) m →
  related keys keys m m.
Proof.
  intros Hobl Hch s s' [Hstore Hpaths]. split; [apply Hobl|].
  destruct (Hch s) as (_ & Hs & evs & Ht & Hevs).
  destruct (Hch s') as (_ & Hs' & evs' & Ht' & Hevs').
  split.
  - intros k Hk. rewrite Hs, Hs' by tauto.
    destruct (m s).1; [by apply Hstore|by apply elem_of_nil in Hk].
  - rewrite Ht, Ht', !paths_written_app, Hpaths.
    by rewrite (paths_written_none evs), (paths_written_none evs').
Qed.

Ltac related_step :=
  first
    [ eapply related_bind; [|intros]
    | apply related_ret
    | apply related_exit
    | apply related_emit
    | apply related_get_value; is_key
    | apply related_azd_env_set; not_key
    | case_match ].

Section Two_worlds.

Context (w : World) (succeeds : string → bool).

Let w' := with_set_succeeds w succeeds.

(** Closes a goal [∀ k, k ∈ keys' → k ∈ keys] on literal lists. *)
Ltac sub_keys :=
  let k := fresh "k" in
  let Hk := fresh "Hk" in
  intros k Hk;
  repeat (apply elem_of_cons in Hk as [-> | Hk]; [is_key|]);
  by apply elem_of_nil in Hk.

Lemma Get_tenantId_related account :
  related keys_read keys_discovery (Get_tenantId w account) (Get_tenantId w' account).
Proof.
  unfold Get_tenantId.
  eapply related_bind; [apply related_get_value; is_key|intros tenantId].
  apply (related_forget _ keys_discovery); [sub_keys|].
  repeat related_step.
Qed.

Lemma Resolve_identity_related :
  related keys_read keys_discovery (Resolve_identity w) (Resolve_identity w').
Proof.
  unfold Resolve_identity.
  eapply related_bind;
    [unfold Validate_prerequisites; simpl; repeat related_step|intros account].
  eapply related_bind;
    [unfold Get_envName; simpl; repeat related_step|intros envName].
  eapply related_bind; [apply Get_tenantId_related|intros tenantId].
  eapply related_bind;
    [unfold Register_app, Catch; simpl; repeat related_step|intros clientId].
  apply related_ret.
Qed.

Lemma Validate_permissions_related keys resourceGroup :
  related keys keys (Validate_permissions w resourceGroup)
    (Validate_permissions w' resourceGroup).
Proof. unfold Validate_permissions. simpl. repeat related_step. Qed.

Lemma Use_preconfigured_related endpoint group agent :
  related keys_discovery []
    (Use_preconfigured w endpoint group agent)
    (Use_preconfigured w' endpoint group agent).
Proof.
  unfold Use_preconfigured.
  apply (related_forget _ []); [sub_keys|].
  eapply related_bind; [apply Validate_permissions_related|intros _].
  simpl. repeat related_step.
Qed.

Lemma Select_resource_related keys rs name group :
  related keys keys (Select_resource w rs name group) (Select_resource w' rs name group).
Proof.
  change (Select_resource w' rs name group) with (Select_resource w rs name group).
  apply related_oblivious; [apply Select_resource_oblivious|].
  intros s. eapply changes_mono; [| |apply Select_resource_changes]; [done|].
  intros e [[m ->]|He]; [simpl; tauto|]. destruct e; simpl in *; tauto.
Qed.

Lemma Resolve_agent_related aiEndpoint :
  related keys_agent [] (Resolve_agent w aiEndpoint) (Resolve_agent w' aiEndpoint).
Proof.
  unfold Resolve_agent.
  eapply related_bind; [apply related_get_value; is_key|intros aiAgentId].
  apply (related_forget _ []); [sub_keys|].
  simpl. repeat related_step.
Qed.

Lemma Discover_related name group :
  related keys_discovery [] (Discover w name group) (Discover w' name group).
Proof.
  unfold Discover, Configure_project, Catch. simpl.
  eapply related_bind; [apply related_emit|intros _].
  destruct (az_cognitiveservices_account_list w) as [|r0 rs0];
    [repeat related_step|].
  eapply related_bind; [apply Select_resource_related|intros [r|]];
    [|repeat related_step].
  apply (related_forget _ keys_agent); [sub_keys|].
  eapply related_bind; [apply related_emit|intros _].
  destruct (az_rest_projects w (res_id r)) as [|p ps]; [repeat related_step|].
  do 3 (eapply related_bind; [apply related_azd_env_set; not_key|intros _]).
  eapply related_bind; [apply Validate_permissions_related|intros _].
  apply Resolve_agent_related.
Qed.

Lemma Resolve_resource_related :
  related keys_discovery [] (Resolve_resource w) (Resolve_resource w').
Proof.
  unfold Resolve_resource.
  do 4 (eapply related_bind; [apply related_get_value; is_key|intros ?]).
  case_match; [apply Use_preconfigured_related|apply Discover_related].
Qed.

Lemma Write_env_files_related envName clientId tenantId :
  related [] []
    (Write_env_files w envName clientId tenantId)
    (Write_env_files w' envName clientId tenantId).
Proof.
  intros s s' [_ Hpaths]. rewrite !Write_env_files_run. cbn [fst snd keys_after].
  split; [done|]. split; [intros k Hk; by apply elem_of_nil in Hk|].
  cbn [trace]. by rewrite !paths_written_app, Hpaths.
Qed.

Lemma preprovision_related :
  related keys_read [] (preprovision w) (preprovision w').
Proof.
  unfold preprovision.
  eapply related_bind; [apply Resolve_identity_related|].
  intros [[envName tenantId] clientId].
  eapply related_bind; [apply Resolve_resource_related|intros _].
  apply Write_env_files_related.
Qed.

End Two_worlds.

Lemma run_state w s : (run w s).2 = (preprovision w s).2.
Proof. unfold run. destruct (preprovision w s) as [[?|?] ?]; reflexivity. Qed.

(** A run only ever adds to the trace. *)
Lemma run_trace w s : trace (run w s).2 = trace s ++ new_events w s.
Proof.
  assert (∃ evs, trace (run w s).2 = trace s ++ evs) as [evs Hevs].
  { pose proof (Resolve_identity_changes w s) as (_ & _ & evs1 & Ht1 & _).
    destruct (Resolve_identity w s) as [[[[envName tenantId] clientId]|code] s1] eqn:Hrun;
      cbn [snd] in Ht1.
    - rewrite (run_identity_next _ _ _ _ _ _ Hrun).
      unfold mbind, Script_bind.
      assert (∃ evs2, trace (Resolve_resource w s1).2 = trace s1 ++ evs2) as [evs2 Ht2].
      { rewrite Resolve_resource_branch. destruct (preconfigured (store s1)).
        - destruct (Use_preconfigured_changes w
                      (azd_env_get_value (store s1) "AI_AGENT_ENDPOINT")
                      (azd_env_get_value (store s1) "AI_FOUNDRY_RESOURCE_GROUP")
                      (azd_env_get_value (store s1) "AI_AGENT_ID") s1)
            as (_ & _ & evs2 & Ht2 & _). by exists evs2.
        - destruct (Discover_changes w
                      (azd_env_get_value (store s1) "AI_FOUNDRY_RESOURCE_NAME")
                      (azd_env_get_value (store s1) "AI_FOUNDRY_RESOURCE_GROUP") s1)
            as (_ & _ & evs2 & Ht2 & _). by exists evs2. }
      destruct (Resolve_resource w s1) as [[[]|code] s2]; cbn [snd] in Ht2.
      + rewrite Write_env_files_run. cbn [snd trace].
        eexists. by rewrite Ht2, Ht1, <- !app_assoc.
      + cbn [snd]. eexists. by rewrite Ht2, Ht1, <- !app_assoc.
    - rewrite (run_identity_exit _ _ _ _ Hrun). by exists evs1. }
  unfold new_events. by rewrite Hevs, drop_app_length.
Qed.

(** A run ends with exit code 0 or 1. *)
Lemma run_exit_code w s : (run w s).1 = 0 ∨ (run w s).1 = 1.
Proof.
  pose proof (preconfigured_after_identity w s) as Hpre1.
  destruct (Resolve_identity w s) as [[[[envName tenantId] clientId]|code] s1] eqn:Hrun;
    cbn [snd] in Hpre1.
  - destruct (preconfigured (store s)) eqn:Hpre.
    + destruct (preconfigured_run w s _ _ _ _ Hpre Hrun) as (s2 & evs & -> & _).
      by left.
    + rewrite (run_identity_next _ _ _ _ _ _ Hrun).
      unfold mbind, Script_bind. rewrite Resolve_resource_branch, Hpre1.
      destruct (Discover w _ _ s1) as [[[]|code] s2] eqn:Hd.
      * rewrite Write_env_files_run. by left.
      * right. by apply Discover_exits_with_1 in Hd as ->.
  - right. by rewrite (run_identity_exit _ _ _ _ Hrun).
Qed.

(** C8, as the code has it: the hook does not look at the outcome of a
    write to the azd environment. Whichever writes fail, the run ends with
    the same exit code and writes the same files as the run in which the
    writes go through. *)
Theorem failed_writes_go_unnoticed w succeeds s :
  (run (with_set_succeeds w succeeds) s).1 = (run w s).1 ∧
  paths_written (new_events (with_set_succeeds w succeeds) s)
  = paths_written (new_events w s).
Proof.
  destruct (preprovision_related w succeeds s s) as [Hres [_ Hpaths]]; [done|].
  split.
  - unfold run.
    destruct (preprovision w s) as [[?|?] ?],
      (preprovision (with_set_succeeds w succeeds) s) as [[?|?] ?];
      cbn [fst] in *; by simplify_eq.
  - rewrite <- !run_state, !run_trace, !paths_written_app in Hpaths.
    symmetry. by eapply app_inv_head.
Qed.

(** C8 fails as stated: when every write to the azd environment fails, the
    run still ends with exit code 0, prints no error and writes the three
    files. *)
Lemma run_without_storage_completes :
  (∀ key, azd_env_set_succeeds world_without_storage key = false) ∧
  (run world_without_storage empty_state).1 = 0 ∧
  store (run world_without_storage empty_state).2 = ∅ ∧
  Forall (λ e, ∀ message, e ≠ Write_Error message)
    (new_events world_without_storage empty_state) ∧
  paths_written (new_events world_without_storage empty_state)
  = [envFilePath_of "dev"; frontendEnvPath; backendEnvPath].
Proof.
  split_and!; try done; try (vm_compute; reflexivity).
  vm_compute. repeat constructor; discriminate.
Qed.

(** * Further properties of the hook *)

(** ** Relations every step of a script keeps *)

Section Steps.

Context (R : State → State → Prop).
Context (R_refl : ∀ s, R s s) (R_trans : ∀ s1 s2 s3, R s1 s2 → R s2 s3 → R s1 s3).

Lemma steps_ret {A} (a : A) : respects R (mret a).
Proof. intros s. apply R_refl. Qed.

Lemma steps_exit {A} code : respects R (@exit A code).
Proof. intros s. apply R_refl. Qed.

Lemma steps_get_value key : respects R (get_value key).
Proof. intros s. apply R_refl. Qed.

Lemma steps_bind {A B} (m : Script A) (f : A → Script B) :
  respects R m → (∀ a, respects R (f a)) → respects R (m ≫= f).
Proof.
  intros Hm Hf s. unfold mbind, Script_bind.
  specialize (Hm s). destruct (m s) as [[a|code] s1]; [|done].
  eapply R_trans; [done|]. apply Hf.
Qed.

End Steps.

Lemma apply_sets_app evs1 evs2 env :
  apply_sets (evs1 ++ evs2) env = apply_sets evs2 (apply_sets evs1 env).
Proof. apply foldl_app. Qed.

Lemma follows_trace_refl s : follows_trace s s.
Proof. exists []. by rewrite app_nil_r. Qed.

Lemma follows_trace_trans s1 s2 s3 :
  follows_trace s1 s2 → follows_trace s2 s3 → follows_trace s1 s3.
Proof.
  intros (evs1 & Ht1 & Hs1) (evs2 & Ht2 & Hs2). exists (evs1 ++ evs2).
  by rewrite Ht2, Ht1, app_assoc, Hs2, Hs1, apply_sets_app.
Qed.

Lemma follows_trace_emit e :
  (∀ key value, e ≠ Azd_env_set key value true) →
  respects follows_trace (emit e).
Proof.
  intros He s. exists [e]. split; [done|]. simpl.
  destruct e as [| |key value []| | | | | | |]; try done. by destruct (He key value).
Qed.

Lemma follows_trace_azd_env_set w key value :
  respects follows_trace (azd_env_set w key value).
Proof.
  intros s. eexists [_]. split; [done|]. simpl. unfold store_after_set.
  by destruct (azd_env_set_succeeds w key).
Qed.

Lemma follows_trace_write_file path content :
  respects follows_trace (write_file path content).
Proof. intros s. by eexists [_]. Qed.

Lemma follows_trace_read_file path : respects follows_trace (read_file path).
Proof. intros s. apply follows_trace_refl. Qed.

Ltac follows_step :=
  first
    [ apply (steps_bind _ follows_trace_trans); [|intros]
    | apply (steps_ret _ follows_trace_refl)
    | apply (steps_exit _ follows_trace_refl)
    | apply (steps_get_value _ follows_trace_refl)
    | apply follows_trace_read_file
    | apply follows_trace_write_file
    | apply follows_trace_azd_env_set
    | apply follows_trace_emit; discriminate
    | case_match ].


Lemma apply_sets_grows evs env k :
  is_Some (env !! k) → is_Some (apply_sets evs env !! k).
Proof.
  revert env. induction evs as [|e evs IH]; intros env Hk; [done|].
  apply IH. destruct e as [| |key value []| | | | | | |]; try done.
  destruct (decide (key = k)) as [->|Hne].
  - rewrite lookup_insert_eq. by eexists.
  - by rewrite lookup_insert_ne.
Qed.

Lemma adds_refl P s : adds P s s.
Proof. exists []. by rewrite app_nil_r. Qed.

Lemma adds_trans P s1 s2 s3 : adds P s1 s2 → adds P s2 s3 → adds P s1 s3.
Proof.
  intros (evs1 & Ht1 & H1) (evs2 & Ht2 & H2). exists (evs1 ++ evs2).
  rewrite Ht2, Ht1, app_assoc. split; [done|]. by apply Forall_app.
Qed.

Lemma adds_emit (P : event → Prop) e : P e → respects (adds P) (emit e).
Proof. intros He s. exists [e]. split; [done|]. by constructor. Qed.

Lemma adds_azd_env_set (P : event → Prop) w key value :
  (∀ stored, P (Azd_env_set key value stored)) →
  respects (adds P) (azd_env_set w key value).
Proof. intros He s. eexists [_]. split; [done|]. by constructor. Qed.

Lemma adds_write_file (P : event → Prop) path content :
  (∀ written, P (Out_File path written)) →
  respects (adds P) (write_file path content).
Proof. intros He s. eexists [_]. split; [done|]. by constructor. Qed.

Lemma adds_read_file P path : respects (adds P) (read_file path).
Proof. intros s. apply adds_refl. Qed.

Lemma adds_new_events P w s : adds P s (run w s).2 → Forall P (new_events w s).
Proof.
  intros (evs & Ht & Hevs). unfold new_events. by rewrite Ht, drop_app_length.
Qed.

(** Proves [respects (adds P) m] for a script [m] unfolded to the primitives,
    given a tactic [side] for the conditions on the events. *)
Ltac adds_step side :=
  first
    [ apply (steps_bind _ (adds_trans _)); [|intros]
    | apply (steps_ret _ (adds_refl _))
    | apply (steps_exit _ (adds_refl _))
    | apply (steps_get_value _ (adds_refl _))
    | apply adds_read_file
    | apply adds_write_file; side
    | apply adds_azd_env_set; side
    | apply adds_emit; side
    | case_match ].

Ltac unfold_hook :=
  unfold preprovision, Resolve_identity, Validate_prerequisites, Get_envName,
    Get_tenantId, Register_app, Catch, Resolve_resource, Use_preconfigured,
    Discover, Configure_project, Resolve_agent, Validate_permissions,
    Select_resource, Select_configured, Select_Index, Write_env_files.

Lemma apply_sets_frame (K : string → Prop) evs env k :
  Forall (λ e, ∀ key value stored, e = Azd_env_set key value stored → K key) evs →
  ¬ K k → apply_sets evs env !! k = env !! k.
Proof.
  revert env. induction evs as [|e evs IH]; intros env Hevs Hk; [done|].
  apply Forall_cons in Hevs as [He Hevs]. simpl.
  change (apply_sets evs
            match e with
            | Azd_env_set key value true => <[key := value]> env
            | _ => env
            end !! k = env !! k).
  rewrite IH by done.
  destruct e as [| |key value []| | | | | | |]; try done.
  apply lookup_insert_ne. intros ->. apply Hk. by eapply He.
Qed.



Lemma before_emission_follows_trace w :
  respects follows_trace (before_emission w).
Proof.
  unfold before_emission, Resolve_identity, Validate_prerequisites, Get_envName,
    Get_tenantId, Register_app, Catch, Resolve_resource, Use_preconfigured,
    Discover, Configure_project, Resolve_agent, Validate_permissions,
    Select_resource, Select_configured, Select_Index.
  repeat follows_step.
Qed.

Lemma before_emission_writes_its_keys w :
  respects (adds (λ e, ∀ key value stored,
                    e = Azd_env_set key value stored → written_key key))
    (before_emission w).
Proof.
  unfold before_emission. unfold_hook.
  repeat adds_step
    ltac:(intros; simplify_eq; first [left; is_key | right; is_key]).
Qed.

(** ** The outcome of a run *)

Lemma Resolve_resource_changes w :
  respects (changes discovery_key (λ e, ¬ is_Out_File e)) (Resolve_resource w).
Proof.
  intros s. rewrite Resolve_resource_branch. destruct (preconfigured (store s)).
  - eapply changes_mono; [| |apply Use_preconfigured_changes].
    + intros k Hk. apply list_elem_of_singleton in Hk as ->. is_key.
    + simpl. tauto.
  - apply Discover_changes.
Qed.

Lemma Use_preconfigured_exits_with_1 w endpoint group agent :
  exits_with_1 (Use_preconfigured w endpoint group agent).
Proof. unfold Use_preconfigured, Validate_permissions. repeat exits_step. Qed.

Lemma Resolve_resource_exits_with_1 w : exits_with_1 (Resolve_resource w).
Proof.
  intros s code s'. rewrite Resolve_resource_branch.
  destruct (preconfigured (store s));
    [apply Use_preconfigured_exits_with_1|apply Discover_exits_with_1].
Qed.

(** A run either gets to the file emission, and then ends with exit code 0,
    or stops before it with exit code 1; up to there no file is written. *)
Lemma run_split w s :
  (∃ envName tenantId clientId s2 evs,
     run w s = (0, (Write_env_files w envName clientId tenantId s2).2) ∧
     files s2 = files s ∧ trace s2 = trace s ++ evs ∧
     Forall (λ e, ¬ is_Out_File e) evs) ∨
  (∃ s2 evs,
     run w s = (1, s2) ∧
     files s2 = files s ∧ trace s2 = trace s ++ evs ∧
     Forall (λ e, ¬ is_Out_File e) evs).
Proof.
  pose proof (Resolve_identity_changes w s) as (Hf1 & _ & evs1 & Ht1 & Hevs1).
  assert (Forall (λ e, ¬ is_Out_File e) evs1) as Hevs1'.
  { eapply Forall_impl; [exact Hevs1|]. intros e He. destruct e; simpl in *; tauto. }
  destruct (Resolve_identity w s) as [[[[envName tenantId] clientId]|code] s1] eqn:Hrun;
    cbn [snd] in *.
  - pose proof (Resolve_resource_changes w s1) as (Hf2 & _ & evs2 & Ht2 & Hevs2).
    rewrite (run_identity_next _ _ _ _ _ _ Hrun). unfold mbind, Script_bind.
    destruct (Resolve_resource w s1) as [[[]|code] s2] eqn:Hres; cbn [snd] in *.
    + left. exists envName, tenantId, clientId, s2, (evs1 ++ evs2).
      rewrite Write_env_files_run. cbn [snd].
      split_and!; [done|congruence|by rewrite Ht2, Ht1, app_assoc|by apply Forall_app].
    + right. exists s2, (evs1 ++ evs2).
      apply Resolve_resource_exits_with_1 in Hres as ->.
      split_and!; [done|congruence|by rewrite Ht2, Ht1, app_assoc|by apply Forall_app].
  - right. exists s1, evs1. by rewrite (run_identity_exit _ _ _ _ Hrun).
Qed.

(** A run is the script up to the file emission, followed by the emission
    when that part does not exit. *)
Lemma run_before_emission w s :
  run w s =
  match before_emission w s with
  | (Next (envName, tenantId, clientId), s2) =>
      (0, (Write_env_files w envName clientId tenantId s2).2)
  | (Exit _, s2) => (1, s2)
  end.
Proof.
  unfold before_emission.
  destruct (Resolve_identity w s) as [[[[envName tenantId] clientId]|code] s1] eqn:Hrun.
  - rewrite (run_identity_next _ _ _ _ _ _ Hrun). unfold mbind, Script_bind.
    rewrite Hrun.
    destruct (Resolve_resource w s1) as [[[]|code] s2] eqn:Hres; cbn.
    + by rewrite Write_env_files_run.
    + by apply Resolve_resource_exits_with_1 in Hres as ->.
  - rewrite (run_identity_exit _ _ _ _ Hrun). unfold mbind, Script_bind.
    by rewrite Hrun.
Qed.

(** X2: the azd environment at the file emission. Up to the emission, or
    to the exit of a run that stops before it, the azd environment is the
    one the run found with the writes of [azd env set] that went through
    applied in order: so far no key is removed, and every key but the six
    of the hook is as it was. *)
Theorem azd_environment_follows_the_writes w s :
  let s2 := (before_emission w s).2 in
  ((run w s).1 = 1 ∧ (run w s).2 = s2 ∨
   (run w s).1 = 0 ∧
   ∃ envName clientId tenantId,
     (run w s).2 = (Write_env_files w envName clientId tenantId s2).2) ∧
  store s2 = apply_sets (events_between s s2) (store s) ∧
  (∀ k, is_Some (store s !! k) → is_Some (store s2 !! k)) ∧
  (∀ k, ¬ written_key k → store s2 !! k = store s !! k).
Proof.
  cbn zeta.
  destruct (before_emission_follows_trace w s) as (evs & Ht & Hstore).
  destruct (before_emission_writes_its_keys w s) as (evs' & Ht' & Hevs).
  rewrite Ht in Ht'. apply app_inv_head in Ht' as <-.
  assert (events_between s (before_emission w s).2 = evs) as ->.
  { unfold events_between. by rewrite Ht, drop_app_length. }
  split_and!.
  - rewrite run_before_emission.
    destruct (before_emission w s) as [[[[envName tenantId] clientId]|code] s2];
      cbn [fst snd]; [right|left]; eauto.
  - done.
  - intros k Hk. rewrite Hstore. by apply apply_sets_grows.
  - intros k Hk. rewrite Hstore. by apply (apply_sets_frame written_key).
Qed.

(** X1: a run ends with exit code 0 or 1. With 0 the last three things it
    did were to write its three files, in the order azd [.env], frontend,
    backend, and it wrote no file before; the frontend and the backend file
    hold what was written to them. With 1 the script has written no file at
    all. *)
Theorem files_are_written_exactly_on_success w s :
  ((run w s).1 = 0 ∧
   ∃ envName before envContent frontend backend,
     new_events w s =
       before ++ [Out_File (envFilePath_of envName) envContent;
                  Out_File frontendEnvPath frontend;
                  Out_File backendEnvPath backend] ∧
     Forall (λ e, ¬ is_Out_File e) before ∧
     files (run w s).2 !! frontendEnvPath = Some frontend ∧
     files (run w s).2 !! backendEnvPath = Some backend) ∨
  ((run w s).1 = 1 ∧ Forall (λ e, ¬ is_Out_File e) (new_events w s)).
Proof.
  destruct (run_split w s)
    as [(envName & tenantId & clientId & s2 & evs & Hrun & Hf & Ht & Hevs)
       |(s2 & evs & Hrun & Hf & Ht & Hevs)].
  - left. unfold new_events. rewrite Hrun. cbn [fst snd]. split; [done|].
    exists envName, evs. rewrite Write_env_files_run. cbn [snd files trace].
    rewrite Ht, <- app_assoc, drop_app_length.
    eexists _, _, _. split_and!; [done|done| |].
    + rewrite lookup_insert_ne by done. by rewrite lookup_insert_eq.
    + by rewrite lookup_insert_eq.
  - right. unfold new_events. rewrite Hrun. cbn [fst snd].
    by rewrite Ht, drop_app_length.
Qed.

Lemma later_phases_adds w envName clientId tenantId :
  respects (adds later_event)
    (Resolve_resource w ;; Write_env_files w envName clientId tenantId).
Proof.
  unfold_hook.
  repeat adds_step ltac:(first [exact I | intros; exact I | intros; is_key]).
Qed.

(** The events of a run that gets past the identity phase: those of the
    identity phase, then those of the later phases. *)
Lemma run_past_identity w s envName tenantId clientId s1 :
  Resolve_identity w s = (Next (envName, tenantId, clientId), s1) →
  ∃ evs, new_events w s = drop (length (trace s)) (trace s1) ++ evs ∧
         Forall later_event evs.
Proof.
  intros Hrun.
  pose proof (Resolve_identity_changes w s) as (_ & _ & evs1 & Ht1 & _).
  rewrite Hrun in Ht1. cbn [snd] in Ht1.
  destruct (later_phases_adds w envName clientId tenantId s1) as (evs & Ht & Hevs).
  exists evs. split; [|done]. unfold new_events.
  rewrite (run_identity_next _ _ _ _ _ _ Hrun).
  destruct ((Resolve_resource w ;; Write_env_files w envName clientId tenantId) s1)
    as [[[]|code] s2]; cbn [snd] in *;
    by rewrite Ht, Ht1, <- app_assoc, !drop_app_length.
Qed.

Lemma run_stops_in_identity w s code s1 :
  Resolve_identity w s = (Exit code, s1) →
  new_events w s = drop (length (trace s)) (trace s1).
Proof.
  intros Hrun. unfold new_events. by rewrite (run_identity_exit _ _ _ _ Hrun).
Qed.

(** ** The phase before the discovery *)

(** An event that does not belong to the later phases is an event of the
    identity phase. *)
Lemma identity_event_of_run w s e :
  ¬ later_event e →
  e ∈ new_events w s ↔ e ∈ drop (length (trace s)) (trace (Resolve_identity w s).2).
Proof.
  intros He.
  destruct (Resolve_identity w s) as [[[[envName tenantId] clientId]|code] s1] eqn:Hrun.
  - destruct (run_past_identity _ _ _ _ _ _ Hrun) as (evs & -> & Hevs).
    rewrite elem_of_app. cbn [snd]. split; [|tauto].
    intros [?|Hin]; [done|]. rewrite Forall_forall in Hevs. by apply Hevs in Hin.
  - by rewrite (run_stops_in_identity _ _ _ _ Hrun).
Qed.

(** Takes a hypothesis [H : e ∈ l] for a literal list [l] apart. *)
Ltac in_literal H :=
  repeat (apply elem_of_cons in H as [H|H]; [simplify_eq|]);
  try (by apply elem_of_nil in H).

(** Proves [e ∈ l] for a literal list [l]. *)
Ltac is_elem :=
  solve [repeat first [apply list_elem_of_here | apply list_elem_of_further]].

Lemma bind_next {A B} (m : Script A) (f : A → Script B) s a s1 :
  m s = (Next a, s1) → (m ≫= f) s = f a s1.
Proof. intros Hm. unfold mbind, Script_bind. by rewrite Hm. Qed.

Lemma bind_exit {A B} (m : Script A) (f : A → Script B) s code s1 :
  m s = (Exit code, s1) → (m ≫= f) s = (Exit code, s1).
Proof. intros Hm. unfold mbind, Script_bind. by rewrite Hm. Qed.

Lemma Validate_prerequisites_inv w s r s1 :
  Validate_prerequisites w s = (r, s1) →
  match r with
  | Next account =>
      s1 = s ∧ az_installed w = true ∧ az_account_show w = Some account
  | Exit code => code = 1 ∧ stops_with_error s s1
  end.
Proof.
  unfold Validate_prerequisites, stops_with_error. script_simpl.
  repeat case_match; intros; simplify_eq; eauto 10.
Qed.

Lemma Get_envName_inv w s r s1 :
  Get_envName w s = (r, s1) →
  match r with
  | Next envName =>
      s1 = s ∧ PS.IsNullOrWhiteSpace (Some envName) = false ∧
      let configured := PS.trimmed (azd_env_get_value (store s) "AZURE_ENV_NAME") in
      if PS.IsNullOrWhiteSpace configured
      then env_AZURE_ENV_NAME w = Some envName
      else configured = Some envName
  | Exit code => code = 1 ∧ stops_with_error s s1
  end.
Proof.
  unfold Get_envName, stops_with_error. script_simpl.
  destruct (PS.IsNullOrWhiteSpace (PS.trimmed _)) eqn:Hconfigured.
  - destruct (env_AZURE_ENV_NAME w) as [envName|]; simpl;
      [destruct (PS.all_white envName) eqn:Hname|];
      intros; simplify_eq; eauto 10.
  - rewrite Hconfigured.
    destruct (PS.trimmed _) as [envName|]; [|done].
    intros; simplify_eq; eauto 10.
Qed.

Lemma Get_tenantId_inv w account s r s1 :
  Get_tenantId w account s = (r, s1) →
  match r with
  | Next tenantId =>
      files s1 = files s ∧ tenantId ≠ "" ∧
      let configured := PS.trimmed (azd_env_get_value (store s) "ENTRA_TENANT_ID") in
      if PS.IsNullOrWhiteSpace configured
      then acc_tenantId account = Some tenantId ∧
           store s1 = store_after_set w "ENTRA_TENANT_ID" tenantId (store s) ∧
           trace s1 = trace s ++
             [Azd_env_set "ENTRA_TENANT_ID" tenantId
                (azd_env_set_succeeds w "ENTRA_TENANT_ID")]
      else configured = Some tenantId ∧ s1 = s
  | Exit code => code = 1 ∧ stops_with_error s s1
  end.
Proof.
  unfold Get_tenantId, stops_with_error, azd_env_set. script_simpl.
  destruct (PS.IsNullOrWhiteSpace (PS.trimmed _)) eqn:Hconfigured.
  - destruct (acc_tenantId account) as [[|c tenantId]|]; simpl;
      intros; simplify_eq; eauto 10.
  - destruct (PS.trimmed _) as [[|c tenantId]|]; [done| |done].
    intros; simplify_eq; eauto 10.
Qed.

(** The reference passed to the registration, lines 129-141: the one of the
    process when it is not blank. *)
Lemma Register_app_inv w envName tenantId s r s1 :
  Register_app w envName tenantId s = (r, s1) →
  let AppName := "ai-foundry-agent-" +:+ envName in
  ∃ reference evs,
    (if PS.IsNullOrWhiteSpace (env_ENTRA_SERVICE_MANAGEMENT_REFERENCE w)
     then reference = None
     else reference = env_ENTRA_SERVICE_MANAGEMENT_REFERENCE w) ∧
    files s1 = files s ∧
    trace s1 = trace s ++
      Call_New_EntraAppRegistration AppName tenantId reference :: evs ∧
    match r with
    | Next clientId =>
        clientId ≠ "" ∧
        New_EntraAppRegistration w AppName tenantId reference
          = Returns (Some clientId) ∧
        store s1 = store_after_set w "ENTRA_SPA_CLIENT_ID" clientId (store s) ∧
        evs = [Azd_env_set "ENTRA_SPA_CLIENT_ID" clientId
                 (azd_env_set_succeeds w "ENTRA_SPA_CLIENT_ID")]
    | Exit code =>
        code = 1 ∧ store s1 = store s ∧
        match New_EntraAppRegistration w AppName tenantId reference with
        | Throws _ => True
        | Returns clientId => PS.truthy clientId = false
        end ∧
        ∃ message, evs = [Warning message] ∨ evs = [Write_Error message]
    end.
Proof.
  unfold Register_app, Catch, azd_env_set. script_simpl.
  destruct (PS.IsNullOrWhiteSpace (env_ENTRA_SERVICE_MANAGEMENT_REFERENCE w));
    (destruct (New_EntraAppRegistration w _ _ _) as [message|[[|c clientId]|]] eqn:Hnew;
     [destruct (PS.matches message _)|..]); simpl;
    intros; simplify_eq; eexists _, _;
    rewrite <- ?app_assoc; rewrite ?Hnew; simpl; eauto 12.
Qed.

(** The identity phase, put together: it stops at a prerequisite with one
    error, or it gets to the registration with a name and a tenant. *)
Lemma Resolve_identity_inv w s :
  (∃ s1, Resolve_identity w s = (Exit 1, s1) ∧ stops_with_error s s1) ∨
  (∃ account envName tenantId s0,
     az_installed w = true ∧ az_account_show w = Some account ∧
     Get_envName w s = (Next envName, s) ∧
     Get_tenantId w account s = (Next tenantId, s0) ∧
     Resolve_identity w s =
       (clientId ← Register_app w envName tenantId;
        mret (envName, tenantId, clientId)) s0).
Proof.
  unfold Resolve_identity.
  destruct (Validate_prerequisites w s) as [[account|code] s1] eqn:Hvp;
    pose proof (Validate_prerequisites_inv _ _ _ _ Hvp) as Hvp'; cbn beta iota in Hvp'.
  - destruct Hvp' as (-> & Haz & Hacc). rewrite (bind_next _ _ _ _ _ Hvp).
    destruct (Get_envName w s) as [[envName|code] s1] eqn:Hge;
      pose proof (Get_envName_inv _ _ _ _ Hge) as Hge'; cbn beta iota in Hge'.
    + destruct Hge' as (-> & _). rewrite (bind_next _ _ _ _ _ Hge).
      destruct (Get_tenantId w account s) as [[tenantId|code] s1] eqn:Hgt;
        pose proof (Get_tenantId_inv _ _ _ _ _ Hgt) as Hgt'; cbn beta iota in Hgt'.
      * right. exists account, envName, tenantId, s1.
        by rewrite (bind_next _ _ _ _ _ Hgt).
      * left. destruct Hgt' as (-> & Hstop). exists s1.
        by rewrite (bind_exit _ _ _ _ _ Hgt).
    + left. destruct Hge' as (-> & Hstop). exists s1.
      by rewrite (bind_exit _ _ _ _ _ Hge).
  - left. destruct Hvp' as (-> & Hstop). exists s1.
    by rewrite (bind_exit _ _ _ _ _ Hvp).
Qed.

(** X3: a prerequisite that fails stops the run. Without the Azure CLI,
    without a login, without a name of the environment, neither stored in
    the azd environment nor given by the process, or without a tenant,
    neither configured nor known for the account, a run stops with exit
    code 1: it has printed one error and done nothing else. *)
Theorem failed_prerequisite_stops_the_run w s :
  az_installed w = false ∨
  az_account_show w = None ∨
  (PS.IsNullOrWhiteSpace (PS.trimmed (azd_env_get_value (store s) "AZURE_ENV_NAME")) = true ∧
   PS.IsNullOrWhiteSpace (env_AZURE_ENV_NAME w) = true) ∨
  (PS.IsNullOrWhiteSpace (PS.trimmed (azd_env_get_value (store s) "ENTRA_TENANT_ID")) = true ∧
   ∀ account, az_account_show w = Some account →
              PS.truthy (acc_tenantId account) = false) →
  (run w s).1 = 1 ∧
  store (run w s).2 = store s ∧
  files (run w s).2 = files s ∧
  ∃ message, new_events w s = [Write_Error message].
Proof.
  intros Hfails.
  destruct (Resolve_identity_inv w s)
    as [(s1 & Hrun & Hs & Hf & message & Ht)
       |(account & envName & tenantId & s0 & Haz & Hacc & Hge & Hgt & _)].
  - rewrite (run_stops_in_identity _ _ _ _ Hrun), (run_identity_exit _ _ _ _ Hrun).
    cbn [fst snd]. split_and!; [done..|]. exists message.
    by rewrite Ht, drop_app_length.
  - exfalso.
    pose proof (Get_envName_inv _ _ _ _ Hge) as (_ & Hname & HenvName).
    pose proof (Get_tenantId_inv _ _ _ _ _ Hgt) as (_ & Htenant & HtenantId).
    cbn zeta in HenvName, HtenantId.
    destruct Hfails as [?|[?|[[Hblank Hprocess]|[Hblank Haccount]]]];
      [congruence|congruence| |].
    + rewrite Hblank in HenvName. rewrite HenvName in Hprocess. congruence.
    + rewrite Hblank in HtenantId. destruct HtenantId as (Haccount' & _).
      specialize (Haccount _ Hacc). rewrite Haccount' in Haccount.
      by destruct tenantId.
Qed.

Lemma stops_with_error_events w s s1 :
  Resolve_identity w s = (Exit 1, s1) → stops_with_error s s1 →
  ∃ message, new_events w s = [Write_Error message].
Proof.
  intros Hrun (_ & _ & message & Ht). exists message.
  by rewrite (run_stops_in_identity _ _ _ _ Hrun), Ht, drop_app_length.
Qed.


(** The identity phase writes at most the tenant before it registers. *)
Lemma Get_tenantId_trace w account s tenantId s0 :
  Get_tenantId w account s = (Next tenantId, s0) →
  ∃ before,
    trace s0 = trace s ++ before ∧
    Forall (λ e, ∃ value stored, e = Azd_env_set "ENTRA_TENANT_ID" value stored) before.
Proof.
  intros Hgt. pose proof (Get_tenantId_inv _ _ _ _ _ Hgt) as (_ & _ & Hgt').
  cbn zeta in Hgt'. destruct (PS.IsNullOrWhiteSpace _).
  - destruct Hgt' as (_ & _ & ->). eexists [_]. split; [done|].
    constructor; [by eexists _, _|constructor].
  - destruct Hgt' as (_ & ->). exists []. by rewrite app_nil_r.
Qed.

(** The shape of a run: it stops at a prerequisite with one error, or it
    gets to the registration, and goes on to the later phases when the
    registration returns a client id. *)
Lemma run_shape w s :
  (∃ message, (run w s).1 = 1 ∧ new_events w s = [Write_Error message]) ∨
  (∃ account envName tenantId s0 before r s1 later,
     az_account_show w = Some account ∧
     Get_envName w s = (Next envName, s) ∧
     Get_tenantId w account s = (Next tenantId, s0) ∧
     trace s0 = trace s ++ before ∧
     Forall (λ e, ∃ value stored, e = Azd_env_set "ENTRA_TENANT_ID" value stored) before ∧
     Register_app w envName tenantId s0 = (r, s1) ∧
     Resolve_identity w s =
       (match r with
        | Next clientId => Next (envName, tenantId, clientId)
        | Exit code => Exit code
        end, s1) ∧
     new_events w s = before ++ drop (length (trace s0)) (trace s1) ++ later ∧
     Forall later_event later ∧
     match r with Next _ => True | Exit _ => later = [] end).
Proof.
  destruct (Resolve_identity_inv w s)
    as [(s1 & Hrun & Hstop)
       |(account & envName & tenantId & s0 & _ & Hacc & Hge & Hgt & Hrun)].
  { left. destruct (stops_with_error_events _ _ _ Hrun Hstop) as [message Hevents].
    exists message. by rewrite (run_identity_exit _ _ _ _ Hrun). }
  right. destruct (Get_tenantId_trace _ _ _ _ _ Hgt) as (before & Ht0 & Hbefore).
  destruct (Register_app w envName tenantId s0) as [r s1] eqn:Hra.
  pose proof (Register_app_inv _ _ _ _ _ _ Hra) as (reference & evs & _ & _ & Ht1 & _).
  assert (drop (length (trace s)) (trace s1)
          = before ++ drop (length (trace s0)) (trace s1)) as Hdrop.
  { by rewrite Ht1, drop_app_length, Ht0, <- app_assoc, drop_app_length. }
  destruct r as [clientId|code].
  - rewrite (bind_next _ _ _ _ _ Hra) in Hrun.
    destruct (run_past_identity _ _ _ _ _ _ Hrun) as (later & Hevents & Hlater).
    exists account, envName, tenantId, s0, before, (Next clientId), s1, later.
    split_and!; [done..| |done|done].
    by rewrite Hevents, Hdrop, <- app_assoc.
  - rewrite (bind_exit _ _ _ _ _ Hra) in Hrun.
    exists account, envName, tenantId, s0, before, (Exit code), s1, [].
    split_and!; [done..| |done|done].
    by rewrite (run_stops_in_identity _ _ _ _ Hrun), Hdrop, app_nil_r.
Qed.






(** A run that completes has gone through the three phases. *)
Lemma run_completed w s :
  (run w s).1 = 0 →
  ∃ envName tenantId clientId s1 s2,
    Resolve_identity w s = (Next (envName, tenantId, clientId), s1) ∧
    Resolve_resource w s1 = (Next tt, s2) ∧
    run w s = (0, (Write_env_files w envName clientId tenantId s2).2).
Proof.
  intros Hcode.
  destruct (Resolve_identity w s) as [[[[envName tenantId] clientId]|code] s1] eqn:Hrun.
  - rewrite (run_identity_next _ _ _ _ _ _ Hrun) in Hcode |- *.
    unfold mbind, Script_bind in *.
    destruct (Resolve_resource w s1) as [[[]|code] s2] eqn:Hres.
    + exists envName, tenantId, clientId, s1, s2.
      by rewrite Write_env_files_run.
    + apply Resolve_resource_exits_with_1 in Hres as ->. done.
  - by rewrite (run_identity_exit _ _ _ _ Hrun) in Hcode.
Qed.

(** The registration behind an identity phase that returns. *)
Lemma Resolve_identity_next w s envName tenantId clientId s1 :
  Resolve_identity w s = (Next (envName, tenantId, clientId), s1) →
  ∃ s0, Get_envName w s = (Next envName, s) ∧
        (∃ account, Get_tenantId w account s = (Next tenantId, s0)) ∧
        Register_app w envName tenantId s0 = (Next clientId, s1).
Proof.
  intros Hrun.
  destruct (Resolve_identity_inv w s)
    as [(s1' & Hstop & _)
       |(account & envName' & tenantId' & s0 & _ & _ & Hge & Hgt & Hrun')];
    [congruence|].
  rewrite Hrun in Hrun'. unfold mbind, Script_bind in Hrun'.
  destruct (Register_app w envName' tenantId' s0) as [[clientId'|code] s1'] eqn:Hra;
    [|done].
  injection Hrun' as -> -> -> ->. exists s0. eauto.
Qed.

(** X6: the outcome of the registration decides whether the run goes on.
    With a client id that is not empty the next thing the run does is to
    set [ENTRA_SPA_CLIENT_ID] to it with [azd env set], and neither before
    nor later does it set that key. When the registration raises, or
    returns nothing or an empty text, the run stops with exit code 1 after
    one message: it has not set the key, which is as it was, nothing is
    listed and the script writes no file. *)
Theorem registration_outcome_decides w s AppName TenantId reference :
  Call_New_EntraAppRegistration AppName TenantId reference ∈ new_events w s →
  ∃ before,
    Forall (λ e, ∀ value stored, e ≠ Azd_env_set "ENTRA_SPA_CLIENT_ID" value stored)
      before ∧
    match New_EntraAppRegistration w AppName TenantId reference with
    | Returns (Some (String c clientId)) =>
        ∃ after,
          new_events w s =
            before ++
            Call_New_EntraAppRegistration AppName TenantId reference
            :: Azd_env_set "ENTRA_SPA_CLIENT_ID" (String c clientId)
                 (azd_env_set_succeeds w "ENTRA_SPA_CLIENT_ID")
            :: after ∧
          Forall (λ e, ∀ value stored,
                    e ≠ Azd_env_set "ENTRA_SPA_CLIENT_ID" value stored) after
    | _ =>
        (run w s).1 = 1 ∧
        store (run w s).2 !! "ENTRA_SPA_CLIENT_ID" = store s !! "ENTRA_SPA_CLIENT_ID" ∧
        (∃ message,
           new_events w s = before ++
             [Call_New_EntraAppRegistration AppName TenantId reference;
              Warning message] ∨
           new_events w s = before ++
             [Call_New_EntraAppRegistration AppName TenantId reference;
              Write_Error message]) ∧
        Forall (λ e, ¬ is_listing e ∧ ¬ is_agent_listing e ∧ ¬ is_Out_File e)
          (new_events w s)
    end.
Proof.
  intros Hin.
  destruct (run_shape w s)
    as [(message & _ & Hstop)
       |(account & envName & tenantId & s0 & before & r & s1 & later
         & _ & _ & Hgt & Ht0 & Hbefore & Hra & Hrun & Hevents & Hlater & Hexit)].
  { rewrite Hstop in Hin. in_literal Hin. }
  pose proof (Register_app_inv _ _ _ _ _ _ Hra)
    as (reference' & evs & _ & Hfiles & Ht1 & Hr).
  cbn zeta in Hr. rewrite Ht1, drop_app_length in Hevents.
  assert (Forall (λ e, ∀ value stored, e ≠ Azd_env_set "ENTRA_SPA_CLIENT_ID" value stored)
            before) as Hbefore'.
  { eapply Forall_impl; [exact Hbefore|]. by intros e (? & ? & ->). }
  assert (Forall (λ e, ∀ value stored, e ≠ Azd_env_set "ENTRA_SPA_CLIENT_ID" value stored)
            later) as Hlater'.
  { eapply Forall_impl; [exact Hlater|]. intros e He value stored ->.
    simpl in He. unfold discovery_key in He. not_key_in He. }
  assert (Call_New_EntraAppRegistration AppName TenantId reference =
          Call_New_EntraAppRegistration ("ai-foundry-agent-" +:+ envName) tenantId
            reference') as [= -> -> ->].
  { rewrite Hevents in Hin.
    rewrite elem_of_app, elem_of_app, elem_of_cons in Hin.
    rewrite Forall_forall in Hbefore, Hlater.
    destruct Hin as [Hin|[[Hin|Hin]|Hin]]; [|done| |].
    - by apply Hbefore in Hin as (? & ? & ?).
    - destruct r as [clientId|code].
      + destruct Hr as (_ & _ & _ & ->). in_literal Hin.
      + destruct Hr as (_ & _ & _ & message & [-> | ->]); in_literal Hin.
    - by apply Hlater in Hin. }
  exists before. split; [done|].
  destruct r as [clientId|code].
  - destruct Hr as (Hne & -> & _ & ->). destruct clientId as [|c clientId]; [done|].
    exists later. split; [|done]. by rewrite Hevents.
  - destruct Hr as (-> & Hs1 & Hfails & message & Hevs). subst later.
    assert ((run w s).1 = 1 ∧
      store (run w s).2 !! "ENTRA_SPA_CLIENT_ID" = store s !! "ENTRA_SPA_CLIENT_ID" ∧
      (∃ message,
         new_events w s = before ++
           [Call_New_EntraAppRegistration ("ai-foundry-agent-" +:+ envName) tenantId
              reference'; Warning message] ∨
         new_events w s = before ++
           [Call_New_EntraAppRegistration ("ai-foundry-agent-" +:+ envName) tenantId
              reference'; Write_Error message]) ∧
      Forall (λ e, ¬ is_listing e ∧ ¬ is_agent_listing e ∧ ¬ is_Out_File e)
        (new_events w s)) as Hstops.
    { rewrite (run_identity_exit _ _ _ _ Hrun). cbn [fst snd].
      split_and!; [done| | |].
      - rewrite Hs1.
        pose proof (Get_tenantId_inv _ _ _ _ _ Hgt) as (_ & _ & Hconfigured).
        cbn zeta in Hconfigured. destruct (PS.IsNullOrWhiteSpace _).
        + destruct Hconfigured as (_ & -> & _). by apply store_after_set_lookup_ne.
        + by destruct Hconfigured as (_ & ->).
      - exists message. rewrite Hevents, app_nil_r.
        destruct Hevs as [-> | ->]; [by left|by right].
      - rewrite Hevents, app_nil_r. apply Forall_app. split.
        + eapply Forall_impl; [exact Hbefore|]. intros e (? & ? & ->). simpl. tauto.
        + destruct Hevs as [-> | ->]; repeat constructor; simpl; tauto. }
    destruct (New_EntraAppRegistration w _ _ _) as [?|[[|c clientId]|]]; done.
Qed.

Lemma registration_outcome_decides_witness :
  ∃ before after,
    new_events sample_world empty_state =
      before ++
      Call_New_EntraAppRegistration "ai-foundry-agent-dev" "tenant-1" None
      :: Azd_env_set "ENTRA_SPA_CLIENT_ID" "abc" true :: after.
Proof.
  assert (Call_New_EntraAppRegistration "ai-foundry-agent-dev" "tenant-1" None
            ∈ new_events sample_world empty_state) as Hin
    by (vm_compute; is_elem).
  destruct (registration_outcome_decides sample_world empty_state _ _ _ Hin)
    as (before & _ & after & Hevents & _).
  by exists before, after.
Defined.

(** X7: the files of a run that completes carry the identity the run has
    resolved: the client id is the one the registration returned, whether
    or not it could be stored, and the tenant is the one the registration
    was called with; endpoint and agent are those the azd environment holds
    at the end. *)
Theorem completed_run_files_carry_the_identity w s :
  (run w s).1 = 0 →
  ∃ AppName TenantId reference clientId,
    Call_New_EntraAppRegistration AppName TenantId reference ∈ new_events w s ∧
    New_EntraAppRegistration w AppName TenantId reference = Returns (Some clientId) ∧
    let env := azd_env_get_value (store (run w s).2) in
    files (run w s).2 !! frontendEnvPath
      = Some (frontendEnvContent clientId TenantId +:+ PS.nl) ∧
    files (run w s).2 !! backendEnvPath
      = Some (backendEnvContent clientId TenantId
                (env "AI_AGENT_ENDPOINT") (env "AI_AGENT_ID") +:+ PS.nl).
Proof.
  intros Hcode.
  destruct (run_completed w s Hcode)
    as (envName & tenantId & clientId & s1 & s2 & Hid & Hres & Hrun).
  destruct (Resolve_identity_next _ _ _ _ _ _ Hid) as (s0 & _ & [account Hgt] & Hra).
  destruct (Get_tenantId_trace _ _ _ _ _ Hgt) as (before & Ht0 & _).
  pose proof (Register_app_inv _ _ _ _ _ _ Hra)
    as (reference & evs & _ & _ & Ht1 & _ & Hnew & _).
  exists ("ai-foundry-agent-" +:+ envName), tenantId, reference, clientId.
  split_and!; [|done|].
  - apply identity_event_of_run; [simpl; tauto|].
    rewrite Hid. cbn [snd]. rewrite Ht1, Ht0, <- app_assoc, drop_app_length.
    apply elem_of_app. right. apply list_elem_of_here.
  - rewrite Hrun, Write_env_files_run. cbn [snd files store]. split.
    + rewrite lookup_insert_ne by done. by rewrite lookup_insert_eq.
    + by rewrite lookup_insert_eq.
Qed.

Lemma completed_run_files_carry_the_identity_witness :
  ∃ AppName TenantId reference clientId,
    Call_New_EntraAppRegistration AppName TenantId reference
      ∈ new_events sample_world empty_state ∧
    New_EntraAppRegistration sample_world AppName TenantId reference
      = Returns (Some clientId) ∧
    let env := azd_env_get_value (store (run sample_world empty_state).2) in
    files (run sample_world empty_state).2 !! frontendEnvPath
      = Some (frontendEnvContent clientId TenantId +:+ PS.nl) ∧
    files (run sample_world empty_state).2 !! backendEnvPath
      = Some (backendEnvContent clientId TenantId
                (env "AI_AGENT_ENDPOINT") (env "AI_AGENT_ID") +:+ PS.nl).
Proof.
  apply (completed_run_files_carry_the_identity sample_world empty_state).
  vm_compute. reflexivity.
Defined.

(** ** The selection of the resource, once more *)

(** X8: [Select-Index] always returns, with -1 or an index of an item, and
    it only prompts. An index in range given by [PromptForChoice] is
    returned as it is, without a [Read-Host]; in every other case
    [Read-Host] is tried, so -1 is returned only after it. An answer to
    [Read-Host] that parses to a number from 1 to the count selects the
    item before it. *)
Theorem Select_Index_contract w Items Title GetLabel s :
  let Count := Z.of_nat (length Items) in
  ∃ i s' evs,
    Select_Index w Items Title GetLabel s = (Next i, s') ∧
    store s' = store s ∧ files s' = files s ∧ trace s' = trace s ++ evs ∧
    Forall is_prompt evs ∧
    (i = -1 ∨ 0 ≤ i < Count) ∧
    (Forall (λ e, ¬ is_Read_Host e) evs ↔
     PromptForChoice (host w) = Some (Returns i) ∧ 0 ≤ i < Count) ∧
    (∀ k, PromptForChoice (host w) = Some (Returns k) → 0 ≤ k < Count → i = k) ∧
    (∀ answer n,
       ¬ Forall (λ e, ¬ is_Read_Host e) evs →
       Read_Host (host w) = Returns answer → PS.TryParse answer = Some n →
       1 ≤ n ≤ Count → i = n - 1).
Proof.
  intros Count. subst Count. unfold Select_Index.
  destruct (PromptForChoice (host w)) as [[m|selected]|]; script_simpl;
    try destruct ((0 <=? selected) && (selected <? Z.of_nat (length Items))) eqn:Hsel;
    script_simpl.
  2: { eexists _, _, [_]. split_and!; [done..|by repeat constructor|lia| | |].
       - split; [intros _; split; [done|lia]|intros _; repeat constructor; simpl; tauto].
       - by intros k [= <-].
       - intros answer n []. repeat constructor. simpl. tauto. }
  all: destruct (Read_Host (host w)) as [m'|selection]; script_simpl;
    try destruct (PS.TryParse selection) as [selectionNum|] eqn:Hparse; script_simpl;
    try destruct ((1 <=? selectionNum) && (selectionNum <=? Z.of_nat (length Items))) eqn:Hnum;
    script_simpl.
  all: repeat match goal with
       | H : _ && _ = true |- _ => apply andb_true_iff in H
       | H : _ && _ = false |- _ => apply andb_false_iff in H
       end;
    rewrite ?Z.leb_le, ?Z.ltb_lt, ?Z.leb_gt, ?Z.ltb_ge in *.
  all: (first [ eexists _, _, [_; _]; split; [done|]; split; [done|]; split; [done|];
                split; [by rewrite <- app_assoc|]
              | eexists _, _, [_]; do 4 (split; [done|]) ]).
  all: (split; [by repeat constructor|]); (split; [lia|]).
  all: split;
    [split; [intros Hno; exfalso; rewrite ?Forall_cons in Hno; simpl in Hno; tauto
            |intros [Heq ?]; simplify_eq; lia]|].
  all: split; [intros k Heq ?; simplify_eq; lia|].
  all: intros answer n _ Heq Hn ?; simplify_eq; lia.
Qed.

(** ** The discovery, step by step *)






















(** ** The agent *)














(** ** An answer on the host *)

Lemma Select_Index_answer w Items Title GetLabel s k :
  (k < length Items)%nat →
  host_answers (host w) (length Items) k →
  ∃ s' evs e,
    Select_Index w Items Title GetLabel s = (Next (Z.of_nat k), s') ∧
    store s' = store s ∧ files s' = files s ∧
    trace s' = trace s ++ evs ++ [e] ∧ is_prompt e.
Proof.
  intros Hk Hhost. unfold Select_Index.
  assert ((0 <=? Z.of_nat k) && (Z.of_nat k <? Z.of_nat (length Items)) = true)
    as Hrange by (apply andb_true_iff; rewrite Z.leb_le, Z.ltb_lt; lia).
  assert ((1 <=? Z.of_nat k + 1) && (Z.of_nat k + 1 <=? Z.of_nat (length Items)) = true)
    as Hrange' by (apply andb_true_iff; rewrite !Z.leb_le; lia).
  destruct Hhost as [Hprompt|[Hprompt (answer & Hread & Hparse)]].
  - rewrite Hprompt. script_simpl. rewrite Hrange. script_simpl.
    eexists _, [], _. by split_and!.
  - rewrite Hread.
    destruct Hprompt as [Hprompt|[[m Hprompt]|(i & Hprompt & Hi)]]; rewrite Hprompt;
      script_simpl.
    + rewrite Hparse, Hrange'. script_simpl.
      replace (Z.of_nat k + 1 - 1) with (Z.of_nat k) by lia.
      eexists _, [], _. by split_and!.
    + rewrite Hparse, Hrange'. script_simpl.
      replace (Z.of_nat k + 1 - 1) with (Z.of_nat k) by lia.
      eexists _, [_], _.
      split_and!; [done|done|done|by rewrite <- app_assoc|done].
    + assert ((0 <=? i) && (i <? Z.of_nat (length Items)) = false) as ->.
      { apply andb_false_iff. rewrite Z.leb_gt, Z.ltb_ge. lia. }
      script_simpl. rewrite Hparse, Hrange'. script_simpl.
      replace (Z.of_nat k + 1 - 1) with (Z.of_nat k) by lia.
      eexists _, [_], _.
      split_and!; [done|done|done|by rewrite <- app_assoc|done].
Qed.

(** X9: an answer on the host is honoured. With several resources and no
    configured hint that selects one, the resource whose number the host
    gives is the one selected, by [PromptForChoice] or else by [Read-Host].
    The selection ends with the prompt, not with the warning of a fall-back,
    and it changes neither the azd environment nor the files. *)
Theorem answer_of_the_host_is_honoured w rs name group s k r :
  (2 ≤ length rs)%nat →
  (Select_configured rs name group s).1 = Next None →
  rs !! k = Some r →
  host_answers (host w) (length rs) k →
  ∃ s' evs e,
    Select_resource w rs name group s = (Next (Some r), s') ∧
    store s' = store s ∧ files s' = files s ∧
    trace s' = trace s ++ evs ++ [e] ∧ is_prompt e.
Proof.
  intros Hlen Hnone Hr Hhost. unfold Select_resource.
  destruct rs as [|r1 [|r2 rest]]; [simpl in Hlen; lia..|]. clear Hlen.
  remember (r1 :: r2 :: rest) as rs eqn:Hrs_eq.
  pose proof (Select_configured_changes rs name group s) as (Hf1 & Hs1 & evs1 & Ht1 & _).
  unfold mbind at 1, Script_bind at 1.
  destruct (Select_configured rs name group s) as [r0 s1]. simpl in *. subst r0.
  destruct (Select_Index_answer w rs "Azure AI Foundry resource selection"
              resource_label s1 k) as (s2 & evs2 & e & Hi & Hs2 & Hf2 & Ht2 & He);
    [by eapply lookup_lt_Some|done|].
  unfold mbind, Script_bind. rewrite Hi.
  assert ((Z.of_nat k <? 0) = false) as -> by (apply Z.ltb_ge; lia).
  script_simpl. rewrite Nat2Z.id, Hr.
  exists s2, (evs1 ++ evs2), e.
  split_and!; [done| |congruence| |done].
  - rewrite Hs2. apply map_eq. intros key. rewrite Hs1 by tauto. done.
  - rewrite Ht2, Ht1. by rewrite <- !app_assoc.
Qed.

Lemma answer_of_the_host_is_honoured_witness :
  ∃ s' evs e,
    Select_resource world_with_console [resource_X; resource_Y] None None empty_state
      = (Next (Some resource_Y), s') ∧
    store s' = store empty_state ∧ files s' = files empty_state ∧
    trace s' = trace empty_state ++ evs ++ [e] ∧ is_prompt e.
Proof.
  apply (answer_of_the_host_is_honoured world_with_console
           [resource_X; resource_Y] None None empty_state 1 resource_Y).
  - simpl. lia.
  - reflexivity.
  - reflexivity.
  - right. split; [by left|]. exists " 2 ". split; reflexivity.
Defined.

Lemma failed_prerequisite_stops_the_run_witness :
  (run (logged_out sample_world) empty_state).1 = 1 ∧
  ∃ message, new_events (logged_out sample_world) empty_state = [Write_Error message].
Proof.
  destruct (failed_prerequisite_stops_the_run (logged_out sample_world) empty_state)
    as (Hcode & _ & _ & Hevents); [right; left; reflexivity|].
  split; [exact Hcode|exact Hevents].
Defined.

(** ** The chat endpoint, once more *)

(** X18: the upstream API is called at most once for a request, and exactly
    when the request has a message that counts as true and the server has
    a key that is not empty; the call carries that key as bearer token and
    the message unchanged as the content of the user. *)
Theorem upstream_is_called_once_with_the_message env fetch req_body :
  let calls := (Server.post_api_chat env fetch req_body).2 in
  (length calls ≤ 1)%nat ∧
  ∀ call,
    call ∈ calls ↔
    ∃ message apiKey,
      Server.get req_body "message" = Returns message ∧
      Server.ToBoolean message = true ∧
      env !! "OPENAI_API_KEY" = Some apiKey ∧ apiKey ≠ "" ∧
      call = Server.completion_request (Server.JStr apiKey) message ∧
      Server.Authorization call = "Bearer " +:+ apiKey ∧
      Server.url call = "https://api.openai.com/v1/chat/completions".
Proof.
  unfold Server.post_api_chat, Server.process_env.
  destruct (Server.get req_body "message") as [m|message] eqn:Hmessage; simpl.
  { split; [lia|]. intros call. split; [by intros ?%elem_of_nil|].
    by intros (? & ? & ? & _). }
  destruct (Server.ToBoolean message) eqn:Htrue; simpl.
  2: { split; [lia|]. intros call. split; [by intros ?%elem_of_nil|].
       intros (? & ? & [= <-] & ? & _). congruence. }
  destruct (env !! "OPENAI_API_KEY") as [[|c apiKey]|] eqn:Hkey; simpl.
  - split; [lia|]. intros call. split; [by intros ?%elem_of_nil|].
    by intros (? & ? & _ & _ & [= <-] & ? & _).
  - assert (∀ response : Server.Response,
      (match fetch (Server.completion_request (Server.JStr (String c apiKey)) message) with
       | Throws _ => (Server.internal_error, [Server.completion_request (Server.JStr (String c apiKey)) message])
       | Returns response =>
           (Server.answer response, [Server.completion_request (Server.JStr (String c apiKey)) message])
       end).2 = [Server.completion_request (Server.JStr (String c apiKey)) message])
      as Hcalls by (intros _; by destruct (fetch _)).
    rewrite (Hcalls Server.internal_error). split; [simpl; lia|].
    intros call. rewrite list_elem_of_singleton. split.
    + intros ->. by exists message, (String c apiKey).
    + by intros (? & ? & [= <-] & _ & [= <-] & _ & -> & _).
  - split; [lia|]. intros call. split; [by intros ?%elem_of_nil|].
    by intros (? & ? & _ & _ & ? & _).
Qed.

Lemma ToBoolean_or_else a b :
  Server.ToBoolean b = true → Server.ToBoolean (Server.or_else a b) = true.
Proof. intros Hb. unfold Server.or_else. by destruct (Server.ToBoolean a) eqn:Ha. Qed.

(** X19: there is always something to show. Every answer of the endpoint is
    an object; but for the answer 400 to a missing message, which has an
    error text only, it has a reply that counts as true. *)
Theorem every_answer_has_a_reply env fetch req_body :
  let response := (Server.post_api_chat env fetch req_body).1 in
  ∃ fields,
    Server.body response = Server.JObj fields ∧
    (Server.ToBoolean (Server.field "reply" fields) = true ∨
     Server.status response = 400 ∧
     fields = [("error", Server.JStr "Message is required")] ∧
     ∃ message, Server.get req_body "message" = Returns message ∧
                Server.ToBoolean message = false).
Proof.
  unfold Server.post_api_chat.
  destruct (Server.get req_body "message") as [m|message] eqn:Hmessage; simpl;
    [by eexists; split; [done|left]|].
  destruct (Server.ToBoolean message) eqn:Htrue; simpl;
    [|eexists; split; [done|right]; eauto].
  destruct (Server.ToBoolean (Server.process_env env "OPENAI_API_KEY")); simpl;
    [|by eexists; split; [done|left]].
  destruct (fetch _) as [m|response]; simpl; [by eexists; split; [done|left]|].
  unfold Server.answer.
  destruct (Server.json response) as [m|data]; [by eexists; split; [done|left]|].
  destruct (Server.ok response); simpl.
  - destruct (Server.get data "choices") as [m|choices];
      [by eexists; split; [done|left]|].
    destruct (Server.first choices) as [m|choice];
      [by eexists; split; [done|left]|].
    eexists. split; [done|left]. by apply ToBoolean_or_else.
  - destruct (Server.get data "error") as [m|error];
      [by eexists; split; [done|left]|].
    eexists. split; [done|by left].
Qed.

(** X20: what goes wrong after the call of the upstream API ends in the
    answer 500: a [fetch] that fails, an upstream body that is not JSON or
    is [null], and an upstream success without [choices]; an upstream
    success with no choice in [choices] is answered with 200 and a stock
    reply. The failure does not undo the call. *)
Theorem failures_become_internal_errors env fetch req_body call :
  let result := Server.post_api_chat env fetch req_body in
  call ∈ result.2 →
  match fetch call with
  | Throws _ => result = (Server.internal_error, [call])
  | Returns response =>
      match Server.json response with
      | Throws _ => result = (Server.internal_error, [call])
      | Returns data =>
          (data ∈ [Server.undefined; Server.null] →
           result = (Server.internal_error, [call])) ∧
          (∀ fields, Server.ok response = true → data = Server.JObj fields →
             (Server.field "choices" fields ∈ [Server.undefined; Server.null] →
              result = (Server.internal_error, [call])) ∧
             (Server.field "choices" fields = Server.JArr [] →
              result =
                ({| Server.status := 200;
                    Server.body :=
                      Server.JObj [("reply", Server.JStr "No response generated")] |},
                 [call])))
      end
  end.
Proof.
  cbn zeta. unfold Server.post_api_chat.
  destruct (Server.get req_body "message") as [m|message]; simpl;
    [by intros ?%elem_of_nil|].
  destruct (Server.ToBoolean message); simpl; [|by intros ?%elem_of_nil].
  destruct (Server.ToBoolean (Server.process_env env "OPENAI_API_KEY")); simpl;
    [|by intros ?%elem_of_nil].
  set (call' := Server.completion_request _ _).
  destruct (fetch call') as [m|response] eqn:Hfetch; simpl;
    intros ->%list_elem_of_singleton; rewrite Hfetch; [done|].
  unfold Server.answer.
  destruct (Server.json response) as [m|data]; [done|]. split.
  - intros Hdata.
    repeat (apply elem_of_cons in Hdata as [-> | Hdata];
            [by destruct (Server.ok response)|]).
    by apply elem_of_nil in Hdata.
  - intros fields -> ->. simpl. split.
    + intros Hchoices.
      repeat (apply elem_of_cons in Hchoices as [-> | Hchoices]; [done|]).
      by apply elem_of_nil in Hchoices.
    + by intros ->.
Qed.

Lemma failures_become_internal_errors_witness :
  Server.post_api_chat {[ "OPENAI_API_KEY" := "sk-test" ]} (λ _, Throws "offline")
    (Server.JObj [("message", Server.JStr "hello")])
  = (Server.internal_error,
     [Server.completion_request (Server.JStr "sk-test") (Server.JStr "hello")]).
Proof.
  apply (failures_become_internal_errors {[ "OPENAI_API_KEY" := "sk-test" ]}
           (λ _, Throws "offline") (Server.JObj [("message", Server.JStr "hello")])
           (Server.completion_request (Server.JStr "sk-test") (Server.JStr "hello"))).
  vm_compute. apply list_elem_of_here.
Defined.



(** ** The chat page *)

(** White space of ASCII alone is trimmed to nothing. *)
Lemma skip_white_blank s :
  PS.all_white s = true → Client.skip_white false s = "".
Proof.
  induction s as [|c s IH]; [done|].
  cbn [PS.all_white]. unfold PS.IsWhiteSpace. intros [Hc Hs]%andb_true_iff.
  cbn [Client.skip_white]. rewrite Hc. by apply IH.
Qed.

Lemma trim_blank s : PS.all_white s = true → Client.trim s = "".
Proof. intros Hs. unfold Client.trim. by rewrite skip_white_blank. Qed.

(** The white space beyond ASCII is trimmed as well, at both ends. *)
Example trim_example :
  Client.trim (no_break_space +:+ " hi there" +:+ line_separator +:+ no_break_space)
    = "hi there" ∧
  Client.trim (no_break_space +:+ line_separator) = "".
Proof. by vm_compute. Qed.

(** X22: a blank message is not sent. When the text field holds nothing
    but white space, the button is disabled and a submit changes nothing
    and requests nothing. This is the case while a request is under way:
    the field has been emptied, and it is disabled as well. *)
Theorem blank_message_is_not_sent fetch st :
  (PS.all_white (Client.message st) = true →
   Client.send_disabled st = true ∧
   Client.handleSubmit fetch st = (st, [])) ∧
  (∀ userMessage,
     let st' := Client.pending st userMessage in
     Client.input_disabled st' = true ∧
     Client.send_disabled st' = true ∧
     Client.handleSubmit fetch st' = (st', [])).
Proof.
  split.
  - intros Hblank. apply trim_blank in Hblank.
    unfold Client.send_disabled, Client.handleSubmit.
    rewrite Hblank. simpl. by rewrite orb_true_r.
  - done.
Qed.

Lemma blank_message_is_not_sent_witness :
  Client.handleSubmit (λ _, Throws "offline") page_with_blanks
  = (page_with_blanks, []).
Proof.
  apply (proj1 (blank_message_is_not_sent (λ _, Throws "offline") page_with_blanks)).
  reflexivity.
Defined.

(** X23: what a submit does. With a message of which something is left
    when it is trimmed of the white space of JavaScript, the page makes one
    request, a POST to [/api/chat] whose message is the text trimmed. When
    the handler is through, the text field is empty, nothing is loading,
    and the conversation has grown by the trimmed message of the user. Then
    either the response was ok: the entry of the assistant follows, with
    the reply of the body, and no error is shown; or an error is shown and
    the conversation ends with the message of the user. *)
Theorem submit_sends_the_trimmed_message fetch st :
  let userMessage := Client.trim (Client.message st) in
  userMessage ≠ "" →
  let st' := (Client.handleSubmit fetch st).1 in
  let sent := {| Client.entry_role := Client.user;
                 Client.content := Returns (Server.JStr userMessage) |} in
  (Client.handleSubmit fetch st).2 =
    [{| Client.url := "/api/chat"; Client.method := "POST";
        Client.body := Server.JObj [("message", Server.JStr userMessage)] |}] ∧
  Client.message st' = "" ∧
  Client.loading st' = false ∧
  ((∃ response data,
      fetch (Client.chat_request userMessage) = Returns response ∧
      Client.ok response = true ∧
      Client.json response = Returns data ∧
      Client.conversation st' =
        Client.conversation st ++
        [sent; {| Client.entry_role := Client.assistant;
                  Client.content := Server.get data "reply" |}] ∧
      Client.error st' = None) ∨
   ((∀ response, fetch (Client.chat_request userMessage) = Returns response →
       Client.ok response = false ∨ ∃ m, Client.json response = Throws m) ∧
    Client.conversation st' = Client.conversation st ++ [sent] ∧
    ∃ m, Client.error st' = Some m)).
Proof.
  cbn zeta. intros Hne.
  unfold Client.handleSubmit, Client.exchange.
  apply String.eqb_neq in Hne. rewrite Hne. apply String.eqb_neq in Hne.
  destruct (fetch _) as [m|response] eqn:Hfetch; simpl.
  { split_and!; [done..|]. right. split_and!; [done|done|by eexists]. }
  destruct (Client.json response) as [m|data] eqn:Hjson; simpl.
  { split_and!; [done..|]. right. split_and!; [|done|by eexists].
    intros ? [= <-]. right. by eexists. }
  destruct (Client.ok response) eqn:Hok; simpl.
  { split_and!; [done..|]. left. exists response, data.
    split_and!; [done..| |done]. by rewrite <- app_assoc. }
  assert (∀ response', Returns response = Returns response' →
            Client.ok response' = false ∨ ∃ m, Client.json response' = Throws m)
    as Hnot_ok by (intros ? [= <-]; by left).
  destruct (Server.get data "reply") as [m|reply]; simpl.
  { split_and!; [done..|]. right. split_and!; [done|done|by eexists]. }
  destruct (Server.ToBoolean reply); simpl.
  { split_and!; [done..|]. right. split_and!; [done|done|by eexists]. }
  destruct (Server.get data "error") as [m|error]; simpl;
    (split_and!; [done..|]; right; split_and!; [done|done|by eexists]).
Qed.

Lemma submit_sends_the_trimmed_message_witness :
  (Client.handleSubmit (λ _, Throws "offline") page_with_hello).2 =
    [{| Client.url := "/api/chat"; Client.method := "POST";
        Client.body := Server.JObj [("message", Server.JStr "hello")] |}].
Proof.
  apply (submit_sends_the_trimmed_message (λ _, Throws "offline") page_with_hello).
  vm_compute. discriminate.
Defined.

(** The answers of the endpoint to a message that counts as true: they
    have a reply that counts as true, and outside the success statuses the
    reply is a text that is not empty. *)
Lemma answer_to_a_message env upstream text :
  text ≠ "" →
  let response :=
    (Server.post_api_chat env upstream
       (Server.JObj [("message", Server.JStr text)])).1 in
  ∃ fields reply,
    Server.body response = Server.JObj fields ∧
    Server.get (Server.JObj fields) "reply" = Returns reply ∧
    Server.ToBoolean reply = true ∧
    (Client.status_ok (Server.status response) = false →
     ∃ shown, reply = Server.JStr shown ∧ shown ≠ "") ∧
    (env !! "OPENAI_API_KEY" = None →
     Server.status response = 500 ∧
     reply = Server.JStr
       "Server configuration error: Missing OPENAI_API_KEY environment variable").
Proof.
  intros Hne. unfold Server.post_api_chat, Server.process_env. simpl.
  assert (String.eqb text "" = false) as -> by by apply String.eqb_neq. simpl.
  destruct (env !! "OPENAI_API_KEY") as [[|c apiKey]|] eqn:Hkey; simpl.
  - eexists _, _. split_and!; [done|done|done|by eexists|done].
  - destruct (upstream _) as [m|response]; simpl.
    { eexists _, _. split_and!; [done|done|done|by eexists|done]. }
    unfold Server.answer.
    destruct (Server.json response) as [m|data]; simpl.
    { eexists _, _. split_and!; [done|done|done|by eexists|done]. }
    destruct (Server.ok response); simpl.
    + destruct (Server.get data "choices") as [m|choices]; simpl.
      { eexists _, _. split_and!; [done|done|done|by eexists|done]. }
      destruct (Server.first choices) as [m|choice]; simpl.
      { eexists _, _. split_and!; [done|done|done|by eexists|done]. }
      eexists _, _. split_and!; [done|done| |done|done].
      by apply ToBoolean_or_else.
    + destruct (Server.get data "error") as [m|error]; simpl.
      { eexists _, _. split_and!; [done|done|done|by eexists|done]. }
      eexists _, _. split_and!; [done|done|done|by eexists|done].
  - eexists _, _. split_and!; [done|done|done|by eexists|done].
Qed.

(** X24: the page in front of the endpoint always gets an answer to show.
    A message of which something is left when it is trimmed is never
    answered with the complaint that the message is missing. The answer has
    a reply that counts as true: with a success status that reply, whatever
    kind of value it is, becomes the content of the entry of the assistant;
    with another status it is a text that is not empty and is shown as the
    error. Without an API key on the server the page shows the
    configuration error of the server. *)
Theorem page_always_shows_an_answer env upstream st :
  let userMessage := Client.trim (Client.message st) in
  userMessage ≠ "" →
  let response :=
    (Server.post_api_chat env upstream
       (Server.JObj [("message", Server.JStr userMessage)])).1 in
  let st' := (Client.handleSubmit (Client.served env upstream) st).1 in
  let sent := {| Client.entry_role := Client.user;
                 Client.content := Returns (Server.JStr userMessage) |} in
  Server.body response ≠ Server.JObj [("error", Server.JStr "Message is required")] ∧
  (∃ fields reply,
     Server.body response = Server.JObj fields ∧
     Server.field "reply" fields = reply ∧
     Server.ToBoolean reply = true ∧
     if Client.status_ok (Server.status response)
     then Client.conversation st' =
            Client.conversation st ++
            [sent; {| Client.entry_role := Client.assistant;
                      Client.content := Returns reply |}] ∧
          Client.error st' = None
     else Client.conversation st' = Client.conversation st ++ [sent] ∧
          ∃ shown, reply = Server.JStr shown ∧ shown ≠ "" ∧
                   Client.error st' = Some shown) ∧
  (env !! "OPENAI_API_KEY" = None →
   Client.error st' =
     Some "Server configuration error: Missing OPENAI_API_KEY environment variable").
Proof.
  cbn zeta. intros Hne.
  destruct (answer_to_a_message env upstream _ Hne)
    as (fields & reply & Hbody & Hreply & Htrue & Hshown & Hkey).
  cbn zeta in *.
  unfold Client.handleSubmit, Client.exchange, Client.served.
  apply String.eqb_neq in Hne. rewrite Hne. simpl.
  set (response := (Server.post_api_chat env upstream _).1) in *.
  rewrite Hbody. injection Hreply as Hreply. split_and!.
  - intros [= ->]. by rewrite <- Hreply in Htrue.
  - exists fields, reply. split_and!; [done..|].
    destruct (Client.status_ok (Server.status response)); simpl.
    + rewrite Hreply. split; [|done]. by rewrite <- app_assoc.
    + rewrite Hreply, Htrue. simpl.
      destruct Hshown as (shown & -> & ?); [done|]. split; [done|]. by exists shown.
  - intros Hnone. destruct (Hkey Hnone) as [Hstatus ->].
    rewrite Hstatus. simpl. by rewrite Hreply.
Qed.

Lemma page_always_shows_an_answer_witness :
  Client.error
    (Client.handleSubmit (Client.served ∅ rate_limited) page_with_hello).1 =
  Some "Server configuration error: Missing OPENAI_API_KEY environment variable".
Proof.
  apply (page_always_shows_an_answer ∅ rate_limited page_with_hello).
  - vm_compute. discriminate.
  - reflexivity.
Defined.

(** ** The azd [.env] file, written and read back *)

Lemma break_at_Some sep s a b :
  break_at sep s = Some (a, b) →
  s = a +:+ String sep b ∧ has_char sep a = false.
Proof.
  revert a b. induction s as [|c s IH]; intros a b; simpl; [done|].
  destruct (Ascii.eqb c sep) eqn:Hc.
  - apply Ascii.eqb_eq in Hc as ->. by intros [= <- <-].
  - destruct (break_at sep s) as [[a' b']|]; simpl; [|done].
    destruct (IH a' b' eq_refl) as [-> Ha']. intros [= <- <-].
    split; [done|]. simpl. by rewrite Hc.
Qed.

Lemma break_at_app sep a b :
  has_char sep a = false → break_at sep (a +:+ String sep b) = Some (a, b).
Proof.
  induction a as [|c a IH].
  - intros _. change ("" +:+ String sep b) with (String sep b). simpl.
    by rewrite Ascii.eqb_refl.
  - rewrite append_cons. simpl. intros [Hc Ha]%orb_false_iff.
    by rewrite Hc, IH.
Qed.

Lemma break_at_spec sep s a b :
  break_at sep s = Some (a, b) ↔
  s = a +:+ String sep b ∧ has_char sep a = false.
Proof.
  split; [apply break_at_Some|]. intros [-> Ha]. by apply break_at_app.
Qed.

(** X15: the assignments the hook sees in a line. A line is taken for an
    assignment exactly when it has a text that is not empty before its
    first equals sign: that text is the key, and all that follows the sign
    is the value, further equals signs included. *)
Theorem assignment_splits_at_the_first_equals line key value :
  match_assignment line = Some (key, value) ↔
  line = key +:+ "=" +:+ value ∧ key ≠ "" ∧ has_char "=" key = false.
Proof.
  unfold match_assignment.
  destruct (break_at "=" line) as [[[|c a] b]|] eqn:Hbreak.
  - apply break_at_spec in Hbreak as [-> _]. split; [done|].
    intros (Heq & Hne & Hkey). destruct key as [|c key]; [done|].
    rewrite append_cons in Heq. injection Heq as <- _. done.
  - pose proof Hbreak as Hbreak'. apply break_at_spec in Hbreak' as [-> Ha]. split.
    + by intros [= <- <-].
    + intros (Heq & Hne & Hkey).
      assert (break_at "=" (String c a +:+ String "=" b) = Some (key, value)) as Hkv.
      { apply break_at_spec. split; [|done]. exact Heq. }
      congruence.
  - split; [done|]. intros (Heq & Hne & Hkey).
    assert (break_at "=" line = Some (key, value)) as Hkv.
    { apply break_at_spec. split; [|done]. exact Heq. }
    congruence.
Qed.

Lemma match_assignment_line key value :
  key ≠ "" → has_char "=" key = false →
  match_assignment (key +:+ "=" +:+ value) = Some (key, value).
Proof.
  intros Hne Hkey. unfold match_assignment.
  change (key +:+ "=" +:+ value) with (key +:+ String "=" value).
  rewrite (break_at_app "=" key value Hkey). by destruct key.
Qed.

Lemma match_assignment_Some line key value :
  match_assignment line = Some (key, value) →
  line = key +:+ "=" +:+ value ∧ key ≠ "" ∧ has_char "=" key = false.
Proof.
  unfold match_assignment.
  destruct (break_at "=" line) as [[[|c a] b]|] eqn:Hbreak; [done| |done].
  intros [= <- <-]. by apply break_at_Some in Hbreak as [-> Ha].
Qed.

(** *** Lines *)

Lemma concat_empty_cons (x : string) (xs : list string) :
  String.concat "" (x :: xs) = x +:+ String.concat "" xs.
Proof. destruct xs; [|done]. simpl. by rewrite append_nil_r. Qed.

Lemma one_line_cons c v :
  one_line (String c v) ↔
  Ascii.eqb c PS.LF = false ∧ Ascii.eqb c PS.CR = false ∧ one_line v.
Proof.
  unfold one_line. cbn [has_char]. rewrite !orb_false_iff. tauto.
Qed.

Lemma one_line_app a b : one_line (a +:+ b) ↔ one_line a ∧ one_line b.
Proof.
  unfold one_line. rewrite !has_char_append, !orb_false_iff. tauto.
Qed.

Lemma Get_Content_cons c rest :
  Get_Content (String c rest) =
  if Ascii.eqb c PS.LF then "" :: Get_Content rest
  else if Ascii.eqb c PS.CR then
    match rest with
    | String c' rest' =>
        if Ascii.eqb c' PS.LF then "" :: Get_Content rest'
        else "" :: Get_Content rest
    | EmptyString => [""]
    end
  else
    match Get_Content rest with
    | [] => [String c ""]
    | line :: lines => String c line :: lines
    end.
Proof. done. Qed.

(** A text without an end of a line, then a line feed: the text is the
    first line. *)
Lemma Get_Content_line a b :
  one_line a → Get_Content (a +:+ String PS.LF b) = a :: Get_Content b.
Proof.
  induction a as [|c a IH].
  - intros _. change ("" +:+ String PS.LF b) with (String PS.LF b).
    by rewrite Get_Content_cons, Ascii.eqb_refl.
  - intros (Hlf & Hcr & Ha)%one_line_cons.
    rewrite append_cons, Get_Content_cons, Hlf, Hcr. by rewrite IH.
Qed.

(** Lines without an end of a line in them, each ended by a line feed, are
    read as they are. *)
Lemma Get_Content_lines (lines : list string) :
  Forall one_line lines →
  Get_Content (String.concat "" ((λ l, l +:+ PS.nl) <$> lines)) = lines.
Proof.
  induction 1 as [|line lines Hline _ IH]; [done|].
  rewrite fmap_cons, concat_empty_cons, append_assoc.
  change (PS.nl +:+ ?x) with (String PS.LF x).
  by rewrite Get_Content_line, IH.
Qed.

(** No line that is read holds an end of a line. *)
Lemma Get_Content_one_line content : Forall one_line (Get_Content content).
Proof.
  enough (Forall one_line (Get_Content content) ∧
          ∀ c, Forall one_line (Get_Content (String c content))) as [? _]; [done|].
  induction content as [|c' rest IH].
  - split; [constructor|]. intros c. rewrite Get_Content_cons.
    destruct (Ascii.eqb c PS.LF) eqn:Hlf; [by repeat constructor|].
    destruct (Ascii.eqb c PS.CR) eqn:Hcr; [by repeat constructor|].
    apply Forall_singleton. by apply one_line_cons.
  - destruct IH as [IH1 IH2]. split; [apply IH2|]. intros c.
    rewrite Get_Content_cons.
    destruct (Ascii.eqb c PS.LF) eqn:Hlf; [by apply Forall_cons_2|].
    destruct (Ascii.eqb c PS.CR) eqn:Hcr.
    { destruct (Ascii.eqb c' PS.LF); by apply Forall_cons_2. }
    specialize (IH2 c').
    destruct (Get_Content (String c' rest)) as [|line lines].
    + apply Forall_singleton. by apply one_line_cons.
    + apply Forall_cons in IH2 as [Hline Hlines].
      apply Forall_cons_2; [|done]. by apply one_line_cons.
Qed.

(** *** Clean tables *)

Lemma clean_empty : clean ∅.
Proof. intros K key value Hin. by rewrite lookup_empty in Hin. Qed.

Lemma clean_well_keyed table : clean table → well_keyed table.
Proof. intros Hclean K key value Hin. by apply Hclean in Hin as [? _]. Qed.

Lemma hashtable_set_clean key value table :
  key ≠ "" → has_char "=" key = false → one_line key → one_line value →
  clean table → clean (hashtable_set key value table).
Proof.
  intros Hne Hkey Hline Hvalue Hclean K key' value'.
  rewrite hashtable_set_lookup. destruct (decide (PS.ToUpper key = K)) as [<-|]; [|apply Hclean].
  destruct (table !! PS.ToUpper key) as [[key0 value0]|] eqn:Hin; intros [= <- <-].
  - by apply Hclean in Hin as (? & ? & ? & ? & _).
  - done.
Qed.

Lemma load_line_clean table line :
  one_line line → clean table → clean (load_line table line).
Proof.
  intros Hline Hclean. unfold load_line.
  destruct (match_assignment line) as [[key value]|] eqn:Hmatch; [|done].
  apply match_assignment_Some in Hmatch as (-> & Hne & Hkey).
  apply one_line_app in Hline as [? [_ ?]%one_line_app].
  by apply hashtable_set_clean.
Qed.

Lemma load_existingVars_clean lines :
  Forall one_line lines → clean (load_existingVars lines).
Proof.
  unfold load_existingVars. generalize clean_empty.
  generalize (∅ : gmap string (string * string)). intros table Hclean Hlines.
  revert table Hclean. induction Hlines as [|line lines Hline _ IH]; [done|].
  intros table Hclean. simpl. by apply IH, load_line_clean.
Qed.

Lemma existingVars_of_clean envName s : clean (existingVars_of envName s).
Proof.
  unfold existingVars_of. destruct (files s !! _); [|apply clean_empty].
  apply load_existingVars_clean, Get_Content_one_line.
Qed.

Lemma set_unless_blank_clean key value table :
  key ≠ "" → has_char "=" key = false → one_line key →
  (∀ v, value = Some v → one_line v) →
  clean table → clean (set_unless_blank key value table).
Proof.
  intros Hne Hkey Hline Hvalue Hclean. unfold set_unless_blank.
  destruct value as [v|]; simpl; [|done].
  destruct (PS.all_white v); simpl; [done|].
  apply hashtable_set_clean; auto.
Qed.

Lemma update_existingVars_clean clientId tenantId endpoint agent group name table :
  one_line clientId → one_line tenantId →
  (∀ v, endpoint = Some v → one_line v) → (∀ v, agent = Some v → one_line v) →
  (∀ v, group = Some v → one_line v) → (∀ v, name = Some v → one_line v) →
  clean table →
  clean (update_existingVars clientId tenantId endpoint agent group name table).
Proof.
  intros. unfold update_existingVars.
  repeat first [ apply set_unless_blank_clean; [done|done|done|done|]
               | apply hashtable_set_clean; [done|done|done|done|] ].
  done.
Qed.

(** *** Sorting and loading *)

Lemma insert_sorted_Permutation w entry sorted :
  insert_sorted w entry sorted ≡ₚ entry :: sorted.
Proof.
  induction sorted as [|e rest IH]; simpl; [done|].
  destruct (culture_le w entry.1 e.1); [done|].
  rewrite IH. apply Permutation_swap.
Qed.

Lemma Sort_Object_Permutation w entries : Sort_Object w entries ≡ₚ entries.
Proof.
  unfold Sort_Object. induction entries as [|e rest IH]; simpl; [done|].
  by rewrite insert_sorted_Permutation, IH.
Qed.

(** Setting entries with different keys one after the other. *)
Lemma foldl_hashtable_set entries table K :
  NoDup ((λ e, PS.ToUpper e.1) <$> entries) →
  (∀ e, e ∈ entries → table !! PS.ToUpper e.1 = None) →
  let result := foldl (λ t e, hashtable_set e.1 e.2 t) table entries in
  (∀ key value, (key, value) ∈ entries → PS.ToUpper key = K →
     result !! K = Some (key, value)) ∧
  ((∀ e, e ∈ entries → PS.ToUpper e.1 ≠ K) → result !! K = table !! K).
Proof.
  revert table. induction entries as [|[k v] entries IH]; intros table Hnodup Hfresh.
  { simpl. split; [by intros ?? ?%elem_of_nil|done]. }
  rewrite fmap_cons in Hnodup. apply NoDup_cons in Hnodup as [Hk Hnodup]. simpl in *.
  destruct (IH (hashtable_set k v table) Hnodup) as [IHin IHout].
  { intros e He. rewrite hashtable_set_lookup.
    destruct (decide _) as [Heq|]; [|by apply Hfresh; right].
    destruct Hk. rewrite Heq. apply list_elem_of_fmap. by exists e. }
  split.
  - intros key value [[= -> ->]|Hin]%elem_of_cons Hkey.
    + rewrite IHout.
      * rewrite hashtable_set_lookup, decide_True by done. subst K.
        pose proof (Hfresh (k, v) ltac:(left)) as Hnone. simpl in Hnone.
        by rewrite Hnone.
      * intros e He Heq. destruct Hk. rewrite Hkey, <- Heq.
        apply list_elem_of_fmap. by exists e.
    + by apply IHin.
  - intros Hout. rewrite IHout by (intros e He; apply Hout; by right).
    rewrite hashtable_set_lookup, decide_False; [done|].
    apply (Hout (k, v)). by left.
Qed.

(** Loading the lines made of the entries of a clean table gives the table
    back. *)
Lemma load_entries table entries :
  clean table →
  entries ≡ₚ (snd <$> map_to_list table) →
  foldl load_line ∅ ((λ e, e.1 +:+ "=" +:+ e.2) <$> entries) = table.
Proof.
  intros Hclean Hperm.
  assert (∀ e, e ∈ entries ↔ table !! PS.ToUpper e.1 = Some e) as Hentries.
  { intros [k v]. rewrite Hperm, list_elem_of_fmap. split.
    - intros ([K [k' v']] & [= <- <-] & Hin%elem_of_map_to_list).
      simpl. by destruct (Hclean _ _ _ Hin) as [-> _].
    - intros Hin. exists (PS.ToUpper k, (k, v)). split; [done|].
      by apply elem_of_map_to_list. }
  assert (foldl load_line ∅ ((λ e, e.1 +:+ "=" +:+ e.2) <$> entries)
          = foldl (λ t e, hashtable_set e.1 e.2 t) ∅ entries) as ->.
  { assert (Forall (λ e, e.1 ≠ "" ∧ has_char "=" e.1 = false) entries) as Hgood.
    { apply Forall_forall. intros [k v] Hin%Hentries.
      by destruct (Hclean _ _ _ Hin) as (_ & ? & ? & _). }
    clear Hperm Hentries. generalize (∅ : gmap string (string * string)).
    induction Hgood as [|[k v] es [Hne Hkey] _ IH]; intros t; [done|].
    simpl. unfold load_line at 2. rewrite match_assignment_line by done.
    apply IH. }
  assert (NoDup ((λ e, PS.ToUpper e.1) <$> entries)) as Hnodup.
  { rewrite Hperm, <- list_fmap_compose.
    assert ((λ e, PS.ToUpper e.1) ∘ snd <$> map_to_list table
            = fst <$> map_to_list table) as ->.
    { apply Forall_fmap_ext, Forall_forall.
      intros [K [k v]] Hin%elem_of_map_to_list. simpl.
      by destruct (Hclean _ _ _ Hin) as [-> _]. }
    apply NoDup_fst_map_to_list. }
  apply map_eq. intros K.
  destruct (foldl_hashtable_set entries ∅ K Hnodup) as [Hin Hout]; [done|].
  destruct (table !! K) as [[k v]|] eqn:HK.
  - destruct (Hclean _ _ _ HK) as [Hk _]. apply Hin; [|done].
    apply Hentries. simpl. by rewrite Hk.
  - rewrite Hout; [done|]. intros e He%Hentries Heq. congruence.
Qed.

Lemma concat_empty_app (xs ys : list string) :
  String.concat "" (xs ++ ys) = String.concat "" xs +:+ String.concat "" ys.
Proof.
  induction xs as [|x xs IH]; [done|].
  rewrite <- app_comm_cons, !concat_empty_cons, IH. by rewrite append_assoc.
Qed.

(** The text of the azd [.env] file, line by line. *)
Lemma envContent_lines w table :
  table !! "KEYS" = None →
  envContent_of w table +:+ PS.nl =
  String.concat ""
    ((λ l, l +:+ PS.nl) <$>
       ("# Auto-generated - Do not commit"
        :: "# Local development environment variables"
        :: "" :: entry_lines w table ++ [""])).
Proof.
  intros HKeys. unfold envContent_of, Keys_sorted, entry_lines. rewrite HKeys.
  rewrite !fmap_cons, !concat_empty_cons, fmap_app, concat_empty_app.
  rewrite <- list_fmap_compose. rewrite !append_assoc.
  change ("" +:+ PS.nl +:+ ?x) with (PS.nl +:+ x).
  change (String.concat "" ((λ l : string, l +:+ PS.nl) <$> [""])) with PS.nl.
  assert (env_line <$> Sort_Object w (map_to_list table).*2
          = (λ l : string, l +:+ PS.nl) ∘ (λ e : string * string, e.1 +:+ "=" +:+ e.2)
              <$> Sort_Object w (map_to_list table).*2) as ->; [|done].
  apply list_fmap_ext. intros _ [k v] _. simpl.
  unfold env_line. simpl. by rewrite !append_assoc.
Qed.

Lemma entry_lines_one_line w table :
  clean table → Forall one_line (entry_lines w table).
Proof.
  intros Hclean. unfold entry_lines. apply Forall_fmap, Forall_forall.
  intros [k v] Hin. rewrite Sort_Object_Permutation in Hin.
  apply list_elem_of_fmap in Hin as ([K [k' v']] & [= <- <-] & Hin%elem_of_map_to_list).
  destruct (Hclean _ _ _ Hin) as (_ & _ & _ & Hk & Hv). simpl.
  rewrite !one_line_app. split_and!; [done| |done]. by split.
Qed.

(** What is written for a clean table without an entry named [Keys] is
    read back as that table. *)
Lemma read_back w table :
  clean table → table !! "KEYS" = None →
  load_existingVars (Get_Content (envContent_of w table +:+ PS.nl)) = table.
Proof.
  intros Hclean HKeys. rewrite envContent_lines by done. rewrite Get_Content_lines.
  - unfold load_existingVars.
    change (foldl load_line ∅ (?a :: ?b :: ?c :: ?rest))
      with (foldl load_line
              (load_line (load_line (load_line ∅ a) b) c) rest).
    assert (∀ t, load_line t "# Auto-generated - Do not commit" = t) as ->
      by (intros t; reflexivity).
    assert (∀ t, load_line t "# Local development environment variables" = t) as ->
      by (intros t; reflexivity).
    assert (∀ t, load_line t "" = t) as Hempty by (intros t; reflexivity).
    rewrite Hempty, foldl_app. simpl. rewrite Hempty.
    apply load_entries; [done|]. apply Sort_Object_Permutation.
  - repeat (apply Forall_cons_2; [by split|]).
    apply Forall_app. split; [by apply entry_lines_one_line|].
    by apply Forall_singleton.
Qed.

Lemma set_unless_blank_lookup key value table K :
  set_unless_blank key value table !! K =
  if decide (PS.ToUpper key = K)
  then if PS.IsNullOrWhiteSpace value then table !! K
       else Some (match table !! K with
                  | Some (key0, _) => key0
                  | None => key
                  end, default "" value)
  else table !! K.
Proof.
  unfold set_unless_blank.
  destruct (PS.IsNullOrWhiteSpace value); simpl.
  - by destruct (decide _).
  - apply hashtable_set_lookup.
Qed.

Ltac lookup_step :=
  first [ rewrite hashtable_set_lookup | rewrite set_unless_blank_lookup ];
  first [ rewrite decide_True by done | rewrite decide_False by done ].

(** Setting the variables of the hook a second time changes nothing. *)
Lemma update_existingVars_idem clientId tenantId endpoint agent group name table :
  update_existingVars clientId tenantId endpoint agent group name
    (update_existingVars clientId tenantId endpoint agent group name table)
  = update_existingVars clientId tenantId endpoint agent group name table.
Proof.
  apply map_eq. intros K.
  destruct (decide (K ∈ hook_keys)) as [Hin|Hout];
    [|by rewrite update_existingVars_other].
  unfold hook_keys in Hin.
  repeat (apply elem_of_cons in Hin as [-> | Hin]);
    [..|by apply elem_of_nil in Hin];
    unfold update_existingVars; repeat lookup_step;
    try (by destruct (table !! _) as [[]|]);
    match goal with
    | |- context [PS.IsNullOrWhiteSpace ?v] =>
        destruct (PS.IsNullOrWhiteSpace v); [|by destruct (table !! _) as [[]|]]
    end;
    by repeat lookup_step.
Qed.

(** The file the emission leaves under the azd environment. *)
Lemma Write_env_files_envFile w envName clientId tenantId s :
  let env := azd_env_get_value (store s) in
  let table :=
    update_existingVars clientId tenantId
      (env "AI_AGENT_ENDPOINT") (env "AI_AGENT_ID")
      (env "AI_FOUNDRY_RESOURCE_GROUP") (env "AI_FOUNDRY_RESOURCE_NAME")
      (existingVars_of envName s) in
  files (Write_env_files w envName clientId tenantId s).2 !! envFilePath_of envName
  = Some (envContent_of w table +:+ PS.nl).
Proof.
  rewrite Write_env_files_run. cbn [snd files].
  rewrite lookup_insert_ne by (symmetry; apply envFilePath_not_backend).
  rewrite lookup_insert_ne by (symmetry; apply envFilePath_not_frontend).
  by rewrite lookup_insert_eq.
Qed.



(** The hook sets no key named [Keys]. *)
Lemma update_existingVars_Keys clientId tenantId endpoint agent group name table :
  update_existingVars clientId tenantId endpoint agent group name table !! "KEYS"
  = table !! "KEYS".
Proof. apply update_existingVars_other. intros H. not_key_in H. Qed.



(** X17: writing the files again changes nothing. When the client id, the
    tenant and the values of the azd environment hold no end of a line, and
    the file the emission finds assigns no key named [Keys], in any letter
    case, an emission on the files of that emission, with the same client
    id and tenant and with an azd environment that gives the same endpoint,
    agent, resource group and resource name again, leaves all files as they
    are. *)
Theorem emission_is_idempotent w envName clientId tenantId s s2 :
  one_line clientId → one_line tenantId →
  (∀ key value, azd_env_get_value (store s) key = Some value → one_line value) →
  existingVars_of envName s !! "KEYS" = None →
  let s' := (Write_env_files w envName clientId tenantId s).2 in
  files s2 = files s' →
  (∀ key,
     key ∈ ["AI_AGENT_ENDPOINT"; "AI_AGENT_ID"; "AI_FOUNDRY_RESOURCE_GROUP";
            "AI_FOUNDRY_RESOURCE_NAME"] →
     azd_env_get_value (store s2) key = azd_env_get_value (store s) key) →
  files (Write_env_files w envName clientId tenantId s2).2 = files s'.
Proof.
  intros HclientId HtenantId Hvalues HKeys. cbn zeta. intros Hfiles Hsame.
  pose proof (Write_env_files_envFile w envName clientId tenantId s) as Hfile.
  cbn zeta in Hfile.
  set (s' := (Write_env_files w envName clientId tenantId s).2) in *.
  set (table := update_existingVars _ _ _ _ _ _ _) in Hfile.
  assert (clean table) as Hclean.
  { apply update_existingVars_clean; try done; try by apply Hvalues.
    apply existingVars_of_clean. }
  assert (table !! "KEYS" = None) as HKeys'
    by (subst table; by rewrite update_existingVars_Keys).
  rewrite (Write_env_files_run w envName clientId tenantId s2).
  cbn [snd files]. rewrite Hfiles, Hfile, read_back by done.
  rewrite !Hsame by is_key.
  fold table. subst table. rewrite update_existingVars_idem.
  fold (existingVars_of envName s).
  rewrite (insert_id (files s') (envFilePath_of envName)) by done.
  assert (files s' !! frontendEnvPath
          = Some (frontendEnvContent clientId tenantId +:+ PS.nl)) as Hfront.
  { subst s'. rewrite Write_env_files_run. cbn [snd files].
    rewrite lookup_insert_ne by done. by rewrite lookup_insert_eq. }
  assert (files s' !! backendEnvPath
          = Some (backendEnvContent clientId tenantId
                    (azd_env_get_value (store s) "AI_AGENT_ENDPOINT")
                    (azd_env_get_value (store s) "AI_AGENT_ID") +:+ PS.nl)) as Hback.
  { subst s'. rewrite Write_env_files_run. cbn [snd files].
    by rewrite lookup_insert_eq. }
  rewrite (insert_id (files s') frontendEnvPath) by done.
  by rewrite (insert_id (files s') backendEnvPath).
Qed.

Lemma emission_is_idempotent_witness :
  files (Write_env_files sample_world "dev" "abc" "tenant-1"
           (Write_env_files sample_world "dev" "abc" "tenant-1" state_with_files).2).2
  = files (Write_env_files sample_world "dev" "abc" "tenant-1" state_with_files).2.
Proof.
  apply (emission_is_idempotent sample_world "dev" "abc" "tenant-1" state_with_files);
    [by split|by split| |reflexivity|reflexivity|reflexivity].
  intros key value Hvalue. unfold azd_env_get_value in Hvalue.
  simpl in Hvalue. by rewrite lookup_empty in Hvalue.
Defined.
